(** * xoshiro.hpp: the xoshiro256++ and xoshiro128++ bit generators

    A shallow embedding of [src/xoshiro.hpp] (namespace [Xoshiro]) and the
    properties of its two engines, their seeding, their comparison operators
    and their stream operators.

    Conventions of the embedding.
    - A [std::uint64_t] or [std::uint32_t] is a [Z] in [0, 2^w); every
      operation that wraps in C++ has its [mod 2^w] written out.
    - The shifts are partial ([option]), and so is everything built from
      them: a shift has no value when its count is negative or larger than
      the width of its operand. A count equal to the width shifts every bit
      out.
    - The object representation of a word (what [memcpy], [memcmp],
      [ostream::write] and [istream::read] see) is its list of bytes in the
      byte order of the host, which is a parameter of the model. *)

From Stdlib Require Import ZArith List Bool Lia.
From coqutil Require Import Byte Z.bitblast Word.LittleEndianList.
Import ListNotations.
Local Open Scope Z_scope.

(** ** A small partiality-and-state monad *)

Definition obind {A B : Type} (o : option A) (k : A -> option B) : option B :=
  match o with
  | Some a => k a
  | None => None
  end.

Notation "x <~ o ; k" := (obind o (fun x => k))
  (at level 61, o at next level, right associativity).

(** A member function of an engine: it may read and write the engine's
    [state] array, and it has no result when it runs into undefined
    behaviour. *)
Definition M (S A : Type) : Type := S -> option (A * S).

Definition ret {S A : Type} (a : A) : M S A := fun s => Some (a, s).

Definition bind {S A B : Type} (m : M S A) (k : A -> M S B) : M S B :=
  fun s =>
    match m s with
    | Some (a, s') => k a s'
    | None => None
    end.

Definition lift {S A : Type} (o : option A) : M S A :=
  fun s =>
    match o with
    | Some a => Some (a, s)
    | None => None
    end.

Notation "x <- m ;; k" := (bind m (fun x => k))
  (at level 61, m at next level, right associativity).
Notation "m ;; k" := (bind m (fun _ => k))
  (at level 61, right associativity).

(** ** Fixed-width unsigned arithmetic *)

Definition wrap (w x : Z) : Z := x mod 2 ^ w.

(** [x << k] on an unsigned [w]-bit operand: the bits pushed past the top
    are lost. C++ gives it a meaning for a count below the width. With a
    count equal to the width the compiled code either shifts every bit out
    or masks the count to zero; the model takes the first, and the one place
    where the code can reach such a count, the rotations below, yields the
    same word under the second. A negative or a larger count has no value. *)
Definition shl (w x k : Z) : option Z :=
  if (0 <=? k) && (k <=? w) then Some (wrap w (Z.shiftl x k)) else None.

(** [x >> k] on an unsigned [w]-bit operand, with the same domain. *)
Definition shr (w x k : Z) : option Z :=
  if (0 <=? k) && (k <=? w) then Some (Z.shiftr x k) else None.

(** [static inline std::uint64_t rotl64(const std::uint64_t x, const int k)]:
    [return (x << k) | (x >> (64 - k));] *)
Definition rotl64 (x k : Z) : option Z :=
  l <~ shl 64 x k;
  r <~ shr 64 x (64 - k);
  Some (Z.lor l r).

(** [static inline std::uint32_t rotl32(const std::uint32_t x, const int k)]:
    [return (x << k) | (x >> (32 - k));] *)
Definition rotl32 (x k : Z) : option Z :=
  l <~ shl 32 x k;
  r <~ shr 32 x (32 - k);
  Some (Z.lor l r).

(** ** Object representations *)

(** The byte order of the host. *)
Inductive byte_order : Type :=
| LittleEndian
| BigEndian.

(** The [n] bytes of an unsigned integer, from the lowest address up. *)
Definition to_bytes (e : byte_order) (n : nat) (x : Z) : list byte :=
  match e with
  | LittleEndian => le_split n x
  | BigEndian => rev (le_split n x)
  end.

(** The unsigned integer whose object representation is [bs]. *)
Definition from_bytes (e : byte_order) (bs : list byte) : Z :=
  match e with
  | LittleEndian => le_combine bs
  | BigEndian => le_combine (rev bs)
  end.

(** [std::memcpy(dest, src, n)] on the bytes of the destination object:
    the first [n] bytes come from the source, the others stay. *)
Definition memcpy (dest src : list byte) (n : nat) : list byte :=
  firstn n src ++ skipn n dest.

(** [std::memcmp(p, q, n)]: the sign of the result is that of the difference
    of the first pair of bytes that differ, both read as [unsigned char]. *)
Fixpoint memcmp (p q : list byte) (n : nat) : Z :=
  match n, p, q with
  | S n', x :: p', y :: q' =>
      if byte.unsigned x =? byte.unsigned y
      then memcmp p' q' n'
      else byte.unsigned x - byte.unsigned y
  | _, _, _ => 0
  end.

(** The conversion from [int] to [bool]. *)
Definition bool_of_int (z : Z) : bool := negb (z =? 0).

(** [extract_32bits_from64_left]: [memcpy] of the four bytes at [&x] into a
    [std::uint32_t]. *)
Definition extract_32bits_from64_left (e : byte_order) (x : Z) : Z :=
  let out := memcpy (repeat Byte.x00 4) (to_bytes e 8 x) 4 in
  from_bytes e out.

(** [extract_32bits_from64_right]: [memcpy] of the four bytes at
    [reinterpret_cast<const std::uint32_t*>(&x) + 1]. *)
Definition extract_32bits_from64_right (e : byte_order) (x : Z) : Z :=
  let out := memcpy (repeat Byte.x00 4) (skipn 4 (to_bytes e 8 x)) 4 in
  from_bytes e out.

(** [assign_32bits_to64_left(std::uint64_t assign_to, const std::uint32_t
    take_from)]. The destination is a parameter passed by value: the
    [memcpy] writes the callee's own copy, and the function returns
    [void], so the value of [assign_to] after the copy (the first component
    below) dies with the call and the caller receives nothing. *)
Definition assign_32bits_to64_left_local (e : byte_order) (assign_to take_from : Z) : Z :=
  from_bytes e (memcpy (to_bytes e 8 assign_to) (to_bytes e 4 take_from) 4).

Definition assign_32bits_to64_left (e : byte_order) (assign_to take_from : Z) : unit :=
  let _ := assign_32bits_to64_left_local e assign_to take_from in tt.

(** [assign_32bits_to64_right]: the same with the four bytes at offset 4 of
    the callee's copy. *)
Definition assign_32bits_to64_right_local (e : byte_order) (assign_to take_from : Z) : Z :=
  let old := to_bytes e 8 assign_to in
  from_bytes e (firstn 4 old ++ memcpy (skipn 4 old) (to_bytes e 4 take_from) 4).

Definition assign_32bits_to64_right (e : byte_order) (assign_to take_from : Z) : unit :=
  let _ := assign_32bits_to64_right_local e assign_to take_from in tt.

(** ** splitmix64 *)

(** [static inline std::uint64_t splitmix64(const std::uint64_t seed)] *)
Definition splitmix64 (seed : Z) : option Z :=
  let z := wrap 64 (seed + 0x9e3779b97f4a7c15) in
  a <~ shr 64 z 30;
  let z := wrap 64 (Z.lxor z a * 0xbf58476d1ce4e5b9) in
  b <~ shr 64 z 27;
  let z := wrap 64 (Z.lxor z b * 0x94d049bb133111eb) in
  c <~ shr 64 z 31;
  Some (Z.lxor z c).

(** ** The state array *)

(** [state[4]], the only data member of either engine. *)
Record state4 : Type := State4 { st0 : Z; st1 : Z; st2 : Z; st3 : Z }.

(** [this->state[i]] as an rvalue; an index outside the array has no value. *)
Definition load (i : nat) : M state4 Z :=
  fun s =>
    match i with
    | 0%nat => Some (st0 s, s)
    | 1%nat => Some (st1 s, s)
    | 2%nat => Some (st2 s, s)
    | 3%nat => Some (st3 s, s)
    | _ => None
    end.

(** [this->state[i] = v]. *)
Definition store (i : nat) (v : Z) : M state4 unit :=
  fun s =>
    match i with
    | 0%nat => Some (tt, State4 v (st1 s) (st2 s) (st3 s))
    | 1%nat => Some (tt, State4 (st0 s) v (st2 s) (st3 s))
    | 2%nat => Some (tt, State4 (st0 s) (st1 s) v (st3 s))
    | 3%nat => Some (tt, State4 (st0 s) (st1 s) (st2 s) v)
    | _ => None
    end.

(** [this->state[i] ^= this->state[j]]. *)
Definition xor_assign (i j : nat) : M state4 unit :=
  a <- load i;;
  b <- load j;;
  store i (Z.lxor a b).

(** Every word of the array is a [w]-bit unsigned integer. *)
Definition wf_state (w : Z) (s : state4) : Prop :=
  (0 <= st0 s < 2 ^ w) /\ (0 <= st1 s < 2 ^ w) /\
  (0 <= st2 s < 2 ^ w) /\ (0 <= st3 s < 2 ^ w).

Definition zero_state : state4 := State4 0 0 0 0.

(** The object representation of the whole array with [n]-byte words. *)
Definition state_bytes (e : byte_order) (n : nat) (s : state4) : list byte :=
  to_bytes e n (st0 s) ++ to_bytes e n (st1 s) ++
  to_bytes e n (st2 s) ++ to_bytes e n (st3 s).

(** The object representation of an array of [n]-byte words. *)
Definition array_bytes (e : byte_order) (n : nat) (ws : list Z) : list byte :=
  flat_map (to_bytes e n) ws.

(** The state array, with [n]-byte words, whose object representation is
    [bs]. *)
Definition state_of_bytes (e : byte_order) (n : nat) (bs : list byte) : state4 :=
  State4 (from_bytes e (firstn n bs))
         (from_bytes e (firstn n (skipn n bs)))
         (from_bytes e (firstn n (skipn (2 * n) bs)))
         (from_bytes e (firstn n (skipn (3 * n) bs))).

(** [std::memcpy(this->state, src, count)], where [src] is the object the
    source pointer points into: reading past its end has no defined result. *)
Definition memcpy_state (e : byte_order) (n : nat) (src : list byte) (count : nat)
  : M state4 unit :=
  fun s =>
    if (count <=? length src)%nat
    then Some (tt, state_of_bytes e n (memcpy (state_bytes e n s) src count))
    else None.

(** [for (unsigned long long ix = 0; ix < z; ix++) body;] The fuel only
    makes the recursion structural: running out of it gives no result. *)
Fixpoint for_ull (fuel : nat) (ix z : Z) (body : M state4 unit) : M state4 unit :=
  match fuel with
  | O => fun _ => None
  | S fuel' =>
      if ix <? z
      then body ;; for_ull fuel' (wrap 64 (ix + 1)) z body
      else ret tt
  end.

(** ** Streams *)

(** An input stream of [char]: the characters still to be extracted, and
    whether the stream is good (neither [failbit] nor [eofbit] set). *)
Record istream : Type := IStream { pending : list byte; good : bool }.

(** [ist.read(reinterpret_cast<char*>(&word), n)], where [old] is the object
    representation of the destination. On a stream that is not good nothing
    is extracted. Otherwise up to [n] characters are extracted and stored;
    when the stream ends before that, the stream fails. *)
Definition ist_read (n : nat) (old : list byte) (ist : istream) : list byte * istream :=
  if good ist
  then
    let got := firstn n (pending ist) in
    (memcpy old got (length got),
     IStream (skipn n (pending ist)) (n <=? length (pending ist))%nat)
  else (old, ist).

(** [ist.get()]: extracts one character whatever it is; its value is
    dropped by the caller. On an exhausted stream it fails. *)
Definition ist_get (ist : istream) : istream :=
  if good ist
  then
    match pending ist with
    | [] => IStream [] false
    | _ :: rest => IStream rest true
    end
  else ist.

(** Reading one [n]-byte word of the state array in place. *)
Definition read_word (e : byte_order) (n : nat) (old : Z) (ist : istream) : Z * istream :=
  let '(bs, ist') := ist_read n (to_bytes e n old) ist in
  (from_bytes e bs, ist').

(** [operator>>] of either engine, with [n = sizeof(word)]. *)
Definition read_state (e : byte_order) (n : nat) (s : state4) (ist : istream)
  : state4 * istream :=
  let '(a, ist) := read_word e n (st0 s) ist in
  let ist := ist_get ist in
  let '(b, ist) := read_word e n (st1 s) ist in
  let ist := ist_get ist in
  let '(c, ist) := read_word e n (st2 s) ist in
  let ist := ist_get ist in
  let '(d, ist) := read_word e n (st3 s) ist in
  (State4 a b c d, ist).

(** An output stream of [char] that accepts what it is given (a string
    stream or a file opened in binary mode): the characters written so far. *)
Definition ostream : Type := list byte.

(** [ost.write(reinterpret_cast<const char*>(&word), n)]. *)
Definition ost_write (e : byte_order) (n : nat) (x : Z) (ost : ostream) : ostream :=
  ost ++ to_bytes e n x.

(** [ost.put(c)]. *)
Definition ost_put (c : byte) (ost : ostream) : ostream := ost ++ [c].

(** The character [' ']. *)
Definition space : byte := Byte.x20.

(** [operator<<] of either engine, with [n = sizeof(word)]. *)
Definition write_state (e : byte_order) (n : nat) (s : state4) (ost : ostream) : ostream :=
  let ost := ost_write e n (st0 s) ost in
  let ost := ost_put space ost in
  let ost := ost_write e n (st1 s) ost in
  let ost := ost_put space ost in
  let ost := ost_write e n (st2 s) ost in
  let ost := ost_put space ost in
  ost_write e n (st3 s) ost.

(** ** class Xoshiro256PP *)

Module Xoshiro256PP.

(** The default member initializer of [state]. *)
Definition default_state : state4 :=
  State4 0x3d23dce41c588f8c 0x10c770bb8da027b0 0xc7a4c5e87c63ba25 0xa830f83239465a2e.

(** [void seed(const std::uint64_t seed)] *)
Definition seed (seed : Z) : M state4 unit :=
  x <- lift (splitmix64 seed);;
  x <- lift (splitmix64 x);;
  store 0 x;;
  x <- load 0;; x <- lift (splitmix64 x);; store 1 x;;
  x <- load 1;; x <- lift (splitmix64 x);; store 2 x;;
  x <- load 2;; x <- lift (splitmix64 x);; store 3 x.

(** [result_type operator()()] *)
Definition call : M state4 Z :=
  a <- load 0;;
  d <- load 3;;
  r <- lift (rotl64 (wrap 64 (a + d)) 23);;
  a <- load 0;;
  let result := wrap 64 (r + a) in
  b <- load 1;;
  t <- lift (shl 64 b 17);;
  xor_assign 2 0;;
  xor_assign 3 1;;
  xor_assign 1 2;;
  xor_assign 0 3;;
  c <- load 2;;
  store 2 (Z.lxor c t);;
  d <- load 3;;
  r <- lift (rotl64 d 45);;
  store 3 r;;
  ret result.

(** [void discard(unsigned long long z)] *)
Definition discard (z : Z) : M state4 unit :=
  for_ull (S (Z.to_nat z)) 0 z (call ;; ret tt).

(** [bool operator==(const Xoshiro256PP &rhs)]:
    [return std::memcmp(this->state, rhs.state, 4*sizeof(std::uint64_t));] *)
Definition op_eq (e : byte_order) (this rhs : state4) : bool :=
  bool_of_int (memcmp (state_bytes e 8 this) (state_bytes e 8 rhs) (4 * 8)).

(** [bool operator!=(const Xoshiro256PP &rhs)], before C++20:
    [return !std::memcmp(this->state, rhs.state, 4*sizeof(std::uint64_t));] *)
Definition op_ne (e : byte_order) (this rhs : state4) : bool :=
  negb (bool_of_int (memcmp (state_bytes e 8 this) (state_bytes e 8 rhs) (4 * 8))).

(** [operator<<] *)
Definition write (e : byte_order) (ost : ostream) (s : state4) : ostream :=
  write_state e 8 s ost.

(** [operator>>] *)
Definition read (e : byte_order) (ist : istream) (s : state4) : state4 * istream :=
  read_state e 8 s ist.

(** [constexpr result_type min() const] *)
Definition min : Z := 0.

(** [constexpr result_type max() const]: [UINT64_MAX]. *)
Definition max : Z := 18446744073709551615.

(** [void seed(const std::uint64_t seed[4])]: the argument is the array the
    pointer points to. *)
Definition seed_words (e : byte_order) (seed : list Z) : M state4 unit :=
  memcpy_state e 8 (array_bytes e 8 seed) (4 * 8).

(** [template<class Sseq> void seed(Sseq& seq)]: [seq.generate] is given the
    state as a range of eight [std::uint32_t] slots. [generate k] stands for
    the values [seq.generate] stores into a range of [k] slots, from the
    first slot on; the slots it does not store into keep their bytes. *)
Definition seed_seq (e : byte_order) (generate : nat -> list Z) : M state4 unit :=
  fun s =>
    let stored := array_bytes e 4 (firstn 8 (generate 8%nat)) in
    Some (tt, state_of_bytes e 8 (memcpy (state_bytes e 8 s) stored (length stored))).

(** [Xoshiro256PP(const std::uint64_t seed)]: the default member
    initializer, then [this->seed(seed)]. *)
Definition construct (seed_ : Z) : option state4 :=
  match seed seed_ default_state with
  | Some (_, s) => Some s
  | None => None
  end.

(** [Xoshiro256PP(const std::uint64_t seed[4])] *)
Definition construct_words (e : byte_order) (seed_ : list Z) : option state4 :=
  match seed_words e seed_ default_state with
  | Some (_, s) => Some s
  | None => None
  end.

End Xoshiro256PP.

(** ** class Xoshiro128PP *)

Module Xoshiro128PP.

(** The default member initializer of [state]. *)
Definition default_state : state4 :=
  State4 0x1c588f8c 0x3d23dce4 0x8da027b0 0x10c770bb.

(** [void seed(const std::uint64_t seed)]. The argument of each inner
    [splitmix64] is a [std::uint32_t] converted to [std::uint64_t], and its
    result is converted to [std::uint32_t] by the assignment. *)
Definition seed (e : byte_order) (seed : Z) : M state4 unit :=
  t1 <- lift (splitmix64 seed);;
  t2 <- lift (splitmix64 t1);;
  x <- lift (splitmix64 (extract_32bits_from64_left e t1));; store 0 (wrap 32 x);;
  x <- lift (splitmix64 (extract_32bits_from64_right e t1));; store 1 (wrap 32 x);;
  x <- lift (splitmix64 (extract_32bits_from64_left e t2));; store 2 (wrap 32 x);;
  x <- lift (splitmix64 (extract_32bits_from64_right e t2));; store 3 (wrap 32 x).

(** [void seed(const std::uint32_t seed)]. The local [temp] is declared
    without an initializer and nothing assigns to it, so the value the
    64-bit overload receives is whatever the storage of [temp] holds:
    [indeterminate] stands for that value. *)
Definition seed32 (e : byte_order) (indeterminate : Z) (seed_ : Z) : M state4 unit :=
  let temp := indeterminate in
  let _ := assign_32bits_to64_left e temp seed_ in
  let _ := assign_32bits_to64_right e temp seed_ in
  seed e temp.

(** [result_type operator()()] *)
Definition call : M state4 Z :=
  a <- load 0;;
  d <- load 3;;
  r <- lift (rotl32 (wrap 32 (a + d)) 7);;
  a <- load 0;;
  let result := wrap 32 (r + a) in
  b <- load 1;;
  t <- lift (shl 32 b 9);;
  xor_assign 2 0;;
  xor_assign 3 1;;
  xor_assign 1 2;;
  xor_assign 0 3;;
  c <- load 2;;
  store 2 (Z.lxor c t);;
  d <- load 3;;
  r <- lift (rotl32 d 11);;
  store 3 r;;
  ret result.

(** [void discard(unsigned long long z)] *)
Definition discard (z : Z) : M state4 unit :=
  for_ull (S (Z.to_nat z)) 0 z (call ;; ret tt).

(** [bool operator==(const Xoshiro128PP &rhs)] *)
Definition op_eq (e : byte_order) (this rhs : state4) : bool :=
  bool_of_int (memcmp (state_bytes e 4 this) (state_bytes e 4 rhs) (4 * 4)).

(** [bool operator!=(const Xoshiro128PP &rhs)], before C++20. *)
Definition op_ne (e : byte_order) (this rhs : state4) : bool :=
  negb (bool_of_int (memcmp (state_bytes e 4 this) (state_bytes e 4 rhs) (4 * 4))).

(** [operator<<] *)
Definition write (e : byte_order) (ost : ostream) (s : state4) : ostream :=
  write_state e 4 s ost.

(** [operator>>] *)
Definition read (e : byte_order) (ist : istream) (s : state4) : state4 * istream :=
  read_state e 4 s ist.

(** [constexpr result_type min() const] *)
Definition min : Z := 0.

(** [constexpr result_type max() const]: [UINT32_MAX]. *)
Definition max : Z := 4294967295.

(** [void seed(const std::uint64_t seed[2])]: sixteen bytes of the two
    64-bit words are copied over the four 32-bit words of the state. *)
Definition seed_words64 (e : byte_order) (seed : list Z) : M state4 unit :=
  memcpy_state e 4 (array_bytes e 8 seed) (4 * 4).

(** [void seed(const std::uint32_t seed[4])] *)
Definition seed_words32 (e : byte_order) (seed : list Z) : M state4 unit :=
  memcpy_state e 4 (array_bytes e 4 seed) (4 * 4).

(** [template<class Sseq> void seed(Sseq& seq)]: [seq.generate] is given the
    four words of the state themselves. [generate k] stands for the values
    [seq.generate] stores into a range of [k] slots, from the first slot on,
    each converted to [std::uint32_t]; a word it does not store into keeps
    its value. *)
Definition seed_seq (generate : nat -> list Z) : M state4 unit :=
  fun s =>
    let stored := generate 4%nat in
    let word (i : nat) (old : Z) : Z :=
      match nth_error stored i with
      | Some v => wrap 32 v
      | None => old
      end in
    Some (tt, State4 (word 0%nat (st0 s)) (word 1%nat (st1 s))
                     (word 2%nat (st2 s)) (word 3%nat (st3 s))).

(** [Xoshiro128PP(const std::uint64_t seed)] *)
Definition construct (e : byte_order) (seed_ : Z) : option state4 :=
  match seed e seed_ default_state with
  | Some (_, s) => Some s
  | None => None
  end.

End Xoshiro128PP.

(** ** Drawing several values *)

(** [n] successive calls of [operator()], keeping the result of the last
    one ([last] when there is none). *)
Fixpoint call_times (call : M state4 Z) (n : nat) (last : Z) : M state4 Z :=
  match n with
  | O => ret last
  | S n' => r <- call;; call_times call n' r
  end.

(** The results of [n] successive calls of [operator()], in order. *)
Fixpoint outputs (call : M state4 Z) (n : nat) : M state4 (list Z) :=
  match n with
  | O => ret []
  | S n' => r <- call;; rs <- outputs call n';; ret (r :: rs)
  end.

(** ** The specification's vocabulary *)

Module Spec.

(** Circular left rotation of a [w]-bit word by [k] positions, as
    arithmetic: the bits pushed out at the top come back at the bottom. *)
Definition rotateLeft (w x k : Z) : Z :=
  wrap w (x * 2 ^ k) + x / 2 ^ (w - k).

Definition rotateLeft64 : Z -> Z -> Z := rotateLeft 64.
Definition rotateLeft32 : Z -> Z -> Z := rotateLeft 32.

(** The upper and the lower 32 bits of a 64-bit word, by shift and mask. *)
Definition highHalf (x : Z) : Z := Z.shiftr x 32.
Definition lowHalf (x : Z) : Z := Z.land x 0xffffffff.

(** The advance operation of Generator256 in the specification's words:
    the output from the current state, then the transition. *)
Definition output256 (s : state4) : Z :=
  wrap 64 (rotateLeft64 (wrap 64 (st0 s + st3 s)) 23 + st0 s).

Definition transition256 (s : state4) : state4 :=
  let t := wrap 64 (st1 s * 2 ^ 17) in
  let s2 := Z.lxor (st2 s) (st0 s) in
  let s3 := Z.lxor (st3 s) (st1 s) in
  let s1 := Z.lxor (st1 s) s2 in
  let s0 := Z.lxor (st0 s) s3 in
  let s2 := Z.lxor s2 t in
  let s3 := rotateLeft64 s3 45 in
  State4 s0 s1 s2 s3.

(** Seed expansion is the code's [splitmix64]. *)
Definition expand : Z -> option Z := splitmix64.

(** Seeding Generator128 from a 64-bit scalar in the specification's
    words, for a given way of cutting a 64-bit word in two: words 0 and 2
    come from the half [first] selects, words 1 and 3 from the half
    [second] selects. The specification takes [highHalf] and [lowHalf]. *)
Definition seed128_with (first second : Z -> Z) (s : Z) : option state4 :=
  t1 <~ expand s;
  t2 <~ expand t1;
  x0 <~ expand (first t1);
  x1 <~ expand (second t1);
  x2 <~ expand (first t2);
  x3 <~ expand (second t2);
  Some (State4 (wrap 32 x0) (wrap 32 x1) (wrap 32 x2) (wrap 32 x3)).

Definition seed128 : Z -> option state4 := seed128_with highHalf lowHalf.

(** The half of a 64-bit word stored at the lower address, and the half
    stored at the higher address, on a host of byte order [e]. *)
Definition firstHalf (e : byte_order) (x : Z) : Z :=
  match e with
  | LittleEndian => lowHalf x
  | BigEndian => highHalf x
  end.

Definition secondHalf (e : byte_order) (x : Z) : Z :=
  match e with
  | LittleEndian => highHalf x
  | BigEndian => lowHalf x
  end.

(** The 32-bit scalar widened to a 64-bit word with both halves equal. *)
Definition widen (s : Z) : Z := Z.lor (Z.shiftl s 32) s.

(** The serialized form of a state with [n]-byte words, with [b1], [b2]
    and [b3] at the three separator positions. *)
Definition framed (e : byte_order) (n : nat) (s : state4) (b1 b2 b3 : byte) : list byte :=
  to_bytes e n (st0 s) ++ b1 :: to_bytes e n (st1 s) ++ b2 ::
  to_bytes e n (st2 s) ++ b3 :: to_bytes e n (st3 s).

(** The 64-bit word whose half stored at the lower address is [a] and whose
    half stored at the higher address is [b], on a host of byte order [e]. *)
Definition joinHalves (e : byte_order) (a b : Z) : Z :=
  match e with
  | LittleEndian => a + 2 ^ 32 * b
  | BigEndian => 2 ^ 32 * a + b
  end.

(** The word-by-word exclusive or of two states. *)
Definition state_xor (a b : state4) : state4 :=
  State4 (Z.lxor (st0 a) (st0 b)) (Z.lxor (st1 a) (st1 b))
         (Z.lxor (st2 a) (st2 b)) (Z.lxor (st3 a) (st3 b)).

(** The advance operation of Generator128 in the specification's words. *)
Definition output128 (s : state4) : Z :=
  wrap 32 (rotateLeft32 (wrap 32 (st0 s + st3 s)) 7 + st0 s).

Definition transition128 (s : state4) : state4 :=
  let t := wrap 32 (st1 s * 2 ^ 9) in
  let s2 := Z.lxor (st2 s) (st0 s) in
  let s3 := Z.lxor (st3 s) (st1 s) in
  let s1 := Z.lxor (st1 s) s2 in
  let s0 := Z.lxor (st0 s) s3 in
  let s2 := Z.lxor s2 t in
  let s3 := rotateLeft32 s3 11 in
  State4 s0 s1 s2 s3.

End Spec.

(** * Properties *)

(** ** Shifts and rotations *)

Lemma shl_defined (w x k : Z) :
  0 <= k < w -> shl w x k = Some (wrap w (Z.shiftl x k)).
Proof.
  intros H. unfold shl.
  replace ((0 <=? k) && (k <=? w)) with true; [reflexivity|].
  symmetry. apply andb_true_intro. split; apply Z.leb_le; lia.
Qed.

Lemma shr_defined (w x k : Z) :
  0 <= k < w -> shr w x k = Some (Z.shiftr x k).
Proof.
  intros H. unfold shr.
  replace ((0 <=? k) && (k <=? w)) with true; [reflexivity|].
  symmetry. apply andb_true_intro. split; apply Z.leb_le; lia.
Qed.

Lemma shr_full_width (w x : Z) :
  0 <= x < 2 ^ w -> shr w x w = Some 0.
Proof.
  intros Hx.
  assert (Hw : 0 <= w).
  { destruct (Z.lt_ge_cases w 0) as [N | P]; [|exact P].
    rewrite Z.pow_neg_r in Hx by assumption. lia. }
  unfold shr.
  replace ((0 <=? w) && (w <=? w)) with true
    by (symmetry; apply andb_true_intro; split; apply Z.leb_le; lia).
  f_equal. rewrite Z.shiftr_div_pow2 by assumption. apply Z.div_small. assumption.
Qed.

Lemma testbit_high (w x i : Z) :
  0 <= x < 2 ^ w -> w <= i -> Z.testbit x i = false.
Proof.
  intros Hx Hi.
  assert (0 <= w \/ w < 0) as [Hw | Hw] by lia.
  - destruct (Z.eq_dec x 0) as [-> | Hn]; [apply Z.testbit_0_l|].
    apply Z.bits_above_log2; [lia|].
    apply Z.lt_le_trans with w; [|assumption].
    apply Z.log2_lt_pow2; lia.
  - rewrite Z.pow_neg_r in Hx by assumption. lia.
Qed.

Lemma wrap_range (w x : Z) : 0 <= w -> 0 <= wrap w x < 2 ^ w.
Proof. intros Hw. unfold wrap. apply Z.mod_pos_bound. apply Z.pow_pos_nonneg; lia. Qed.

Lemma wrap_small (w x : Z) : 0 <= x < 2 ^ w -> wrap w x = x.
Proof. intros H. unfold wrap. apply Z.mod_small. assumption. Qed.

Lemma testbit_wrap (w x i : Z) :
  0 <= w -> Z.testbit (wrap w x) i = (i <? w) && Z.testbit x i.
Proof.
  intros Hw. unfold wrap.
  destruct (Z.ltb_spec i w) as [Hlt | Hge].
  - destruct (Z.ltb_spec i 0) as [Hneg | Hpos].
    + rewrite !Z.testbit_neg_r by assumption. reflexivity.
    + rewrite Z.mod_pow2_bits_low by lia. reflexivity.
  - rewrite Z.mod_pow2_bits_high by lia. reflexivity.
Qed.

Lemma rot_disjoint (w x k : Z) :
  0 <= x < 2 ^ w -> 0 < k < w ->
  Z.land (wrap w (Z.shiftl x k)) (Z.shiftr x (w - k)) = 0.
Proof.
  intros Hx Hk. apply Z.bits_inj'. intros i Hi.
  rewrite Z.land_spec, testbit_wrap, Z.shiftl_spec, Z.shiftr_spec, Z.bits_0 by lia.
  destruct (Z.ltb_spec i k) as [Hlt | Hge].
  - rewrite (Z.testbit_neg_r x (i - k)) by lia.
    rewrite andb_false_r. reflexivity.
  - rewrite (testbit_high w x (i + (w - k))) by lia.
    apply andb_false_r.
Qed.

Lemma rot_is_rotateLeft (w x k : Z) :
  0 <= x < 2 ^ w -> 0 < k < w ->
  Z.lor (wrap w (Z.shiftl x k)) (Z.shiftr x (w - k)) = Spec.rotateLeft w x k.
Proof.
  intros Hx Hk.
  rewrite Z.or_to_plus by (apply rot_disjoint; assumption).
  unfold Spec.rotateLeft.
  rewrite Z.shiftl_mul_pow2, Z.shiftr_div_pow2 by lia. reflexivity.
Qed.

Lemma rot_testbit (w x k i : Z) :
  0 <= x < 2 ^ w -> 0 < k < w -> 0 <= i < w ->
  Z.testbit (Z.lor (wrap w (Z.shiftl x k)) (Z.shiftr x (w - k))) i
  = Z.testbit x ((i - k) mod w).
Proof.
  intros Hx Hk Hi.
  rewrite Z.lor_spec, testbit_wrap, Z.shiftl_spec, Z.shiftr_spec by lia.
  replace (i <? w) with true by (symmetry; apply Z.ltb_lt; lia).
  cbn [andb].
  destruct (Z.ltb_spec i k) as [Hlt | Hge].
  - rewrite (Z.testbit_neg_r x (i - k)) by lia. cbn [orb].
    f_equal.
    replace (i - k) with (i + (w - k) + (-1) * w) by lia.
    rewrite Z.mod_add by lia. symmetry. apply Z.mod_small. lia.
  - rewrite (testbit_high w x (i + (w - k))) by lia. rewrite orb_false_r.
    f_equal. symmetry. apply Z.mod_small. lia.
Qed.

Lemma log2_lt_width (w a : Z) : 0 < w -> 0 <= a < 2 ^ w -> Z.log2 a < w.
Proof.
  intros Hw Ha. destruct (Z.eq_dec a 0) as [-> | Na]; [cbn; lia|].
  apply Z.log2_lt_pow2; lia.
Qed.

Lemma lor_range (w a b : Z) :
  0 <= a < 2 ^ w -> 0 <= b < 2 ^ w -> 0 <= Z.lor a b < 2 ^ w.
Proof.
  intros Ha Hb.
  assert (Hlo : 0 <= Z.lor a b) by (apply Z.lor_nonneg; lia).
  split; [assumption|].
  destruct (Z.eq_dec (Z.lor a b) 0) as [E | E]; [lia|].
  destruct (Z.lt_trichotomy w 0) as [Hw | [-> | Hw]].
  - rewrite Z.pow_neg_r in Ha by assumption. lia.
  - cbn in Ha, Hb. replace a with 0 in E by lia. replace b with 0 in E by lia.
    cbn in E. congruence.
  - apply Z.log2_lt_pow2; [lia|].
    rewrite Z.log2_lor by lia.
    apply Z.max_lub_lt; apply log2_lt_width; assumption.
Qed.

Lemma lxor_range (w a b : Z) :
  0 <= a < 2 ^ w -> 0 <= b < 2 ^ w -> 0 <= Z.lxor a b < 2 ^ w.
Proof.
  intros Ha Hb.
  assert (Hlo : 0 <= Z.lxor a b) by (apply Z.lxor_nonneg; lia).
  split; [assumption|].
  destruct (Z.eq_dec (Z.lxor a b) 0) as [E | E]; [lia|].
  destruct (Z.lt_trichotomy w 0) as [Hw | [-> | Hw]].
  - rewrite Z.pow_neg_r in Ha by assumption. lia.
  - cbn in Ha, Hb. replace a with 0 in E by lia. replace b with 0 in E by lia.
    cbn in E. congruence.
  - apply Z.log2_lt_pow2; [lia|].
    apply Z.le_lt_trans with (Z.max (Z.log2 a) (Z.log2 b)).
    + apply Z.log2_lxor; lia.
    + apply Z.max_lub_lt; apply log2_lt_width; assumption.
Qed.

Lemma shiftr_range (w x m : Z) :
  0 <= x < 2 ^ w -> 0 <= m -> 0 <= Z.shiftr x m < 2 ^ w.
Proof.
  intros Hx Hm. rewrite Z.shiftr_div_pow2 by assumption.
  assert (0 < 2 ^ m) by (apply Z.pow_pos_nonneg; lia).
  split.
  - apply Z.div_pos; lia.
  - apply Z.le_lt_trans with x; [|lia].
    apply Z.div_le_upper_bound; [assumption | nia].
Qed.

Lemma rot_range (w x k : Z) :
  0 <= x < 2 ^ w -> 0 < k < w ->
  0 <= Z.lor (wrap w (Z.shiftl x k)) (Z.shiftr x (w - k)) < 2 ^ w.
Proof.
  intros Hx Hk. apply lor_range.
  - apply wrap_range. lia.
  - apply shiftr_range; [assumption | lia].
Qed.

Lemma rotl64_defined (x k : Z) :
  0 < k < 64 ->
  rotl64 x k = Some (Z.lor (wrap 64 (Z.shiftl x k)) (Z.shiftr x (64 - k))).
Proof.
  intros Hk. unfold rotl64.
  rewrite shl_defined, shr_defined by lia. reflexivity.
Qed.

Lemma rotl32_defined (x k : Z) :
  0 < k < 32 ->
  rotl32 x k = Some (Z.lor (wrap 32 (Z.shiftl x k)) (Z.shiftr x (32 - k))).
Proof.
  intros Hk. unfold rotl32.
  rewrite shl_defined, shr_defined by lia. reflexivity.
Qed.

Lemma rotl64_by_zero (x : Z) : 0 <= x < 2 ^ 64 -> rotl64 x 0 = Some x.
Proof.
  intros Hx. unfold rotl64. rewrite shl_defined by lia. cbn [obind].
  replace (64 - 0) with 64 by lia. rewrite shr_full_width by assumption.
  cbn [obind]. rewrite Z.shiftl_0_r, wrap_small, Z.lor_0_r by assumption.
  reflexivity.
Qed.

Lemma rotl32_by_zero (x : Z) : 0 <= x < 2 ^ 32 -> rotl32 x 0 = Some x.
Proof.
  intros Hx. unfold rotl32. rewrite shl_defined by lia. cbn [obind].
  replace (32 - 0) with 32 by lia. rewrite shr_full_width by assumption.
  cbn [obind]. rewrite Z.shiftl_0_r, wrap_small, Z.lor_0_r by assumption.
  reflexivity.
Qed.


(** ** The advance operation of Xoshiro256PP *)

Lemma call256_unfold (a b c d : Z) :
  Xoshiro256PP.call (State4 a b c d)
  = Some (wrap 64 (Z.lor (wrap 64 (Z.shiftl (wrap 64 (a + d)) 23))
                         (Z.shiftr (wrap 64 (a + d)) (64 - 23)) + a),
          State4 (Z.lxor a (Z.lxor d b))
                 (Z.lxor b (Z.lxor c a))
                 (Z.lxor (Z.lxor c a) (wrap 64 (Z.shiftl b 17)))
                 (Z.lor (wrap 64 (Z.shiftl (Z.lxor d b) 45))
                        (Z.shiftr (Z.lxor d b) (64 - 45)))).
Proof.
  unfold Xoshiro256PP.call, xor_assign, bind, load, store, lift, ret.
  cbn [st0 st1 st2 st3].
  rewrite !rotl64_defined by lia.
  rewrite shl_defined by lia.
  reflexivity.
Qed.

Lemma call128_unfold (a b c d : Z) :
  Xoshiro128PP.call (State4 a b c d)
  = Some (wrap 32 (Z.lor (wrap 32 (Z.shiftl (wrap 32 (a + d)) 7))
                         (Z.shiftr (wrap 32 (a + d)) (32 - 7)) + a),
          State4 (Z.lxor a (Z.lxor d b))
                 (Z.lxor b (Z.lxor c a))
                 (Z.lxor (Z.lxor c a) (wrap 32 (Z.shiftl b 9)))
                 (Z.lor (wrap 32 (Z.shiftl (Z.lxor d b) 11))
                        (Z.shiftr (Z.lxor d b) (32 - 11)))).
Proof.
  unfold Xoshiro128PP.call, xor_assign, bind, load, store, lift, ret.
  cbn [st0 st1 st2 st3].
  rewrite !rotl32_defined by lia.
  rewrite shl_defined by lia.
  reflexivity.
Qed.

(** C1. On every state of Xoshiro256PP, [operator()] has a result: it
    returns [rotateLeft64(state[0] + state[3], 23) + state[0]] of the state
    it was called on, and it leaves the state the specification's transition
    yields, all modulo [2^64]. *)
Theorem xoshiro256pp_call_spec (s : state4) :
  wf_state 64 s ->
  Xoshiro256PP.call s = Some (Spec.output256 s, Spec.transition256 s).
Proof.
  destruct s as [a b c d]. intros (Ha & Hb & Hc & Hd). cbn [st0 st1 st2 st3] in *.
  rewrite call256_unfold.
  unfold Spec.output256, Spec.transition256, Spec.rotateLeft64.
  cbn [st0 st1 st2 st3].
  rewrite !rot_is_rotateLeft; try lia.
  - rewrite Z.shiftl_mul_pow2 by lia. reflexivity.
  - apply lxor_range; assumption.
  - apply wrap_range. lia.
Qed.

Lemma xoshiro256pp_call_spec_witness :
  wf_state 64 Xoshiro256PP.default_state /\
  Xoshiro256PP.call Xoshiro256PP.default_state
  = Some (Spec.output256 Xoshiro256PP.default_state,
          Spec.transition256 Xoshiro256PP.default_state).
Proof.
  assert (H : wf_state 64 Xoshiro256PP.default_state).
  { unfold wf_state, Xoshiro256PP.default_state. cbn. lia. }
  split; [exact H | exact (xoshiro256pp_call_spec _ H)].
Defined.

(** ** Rotation by zero *)



(** For every count below the width, zero included, the rotations are the
    circular left rotation of the specification. *)
Lemma rotl_is_circular_rotation (x k y j : Z) :
  0 <= x < 2 ^ 64 -> 0 <= k < 64 ->
  0 <= y < 2 ^ 32 -> 0 <= j < 32 ->
  rotl64 x k = Some (Spec.rotateLeft64 x k) /\
  rotl32 y j = Some (Spec.rotateLeft32 y j).
Proof.
  intros Hx Hk Hy Hj.
  assert (Z64 : Spec.rotateLeft64 x 0 = x).
  { unfold Spec.rotateLeft64, Spec.rotateLeft.
    rewrite Z.pow_0_r, Z.mul_1_r, Z.sub_0_r, wrap_small by assumption.
    rewrite Z.div_small by assumption. lia. }
  assert (Z32 : Spec.rotateLeft32 y 0 = y).
  { unfold Spec.rotateLeft32, Spec.rotateLeft.
    rewrite Z.pow_0_r, Z.mul_1_r, Z.sub_0_r, wrap_small by assumption.
    rewrite Z.div_small by assumption. lia. }
  split.
  - destruct (Z.eq_dec k 0) as [-> | Nk].
    + rewrite Z64. apply rotl64_by_zero. assumption.
    + rewrite rotl64_defined by lia. f_equal. apply rot_is_rotateLeft; lia.
  - destruct (Z.eq_dec j 0) as [-> | Nj].
    + rewrite Z32. apply rotl32_by_zero. assumption.
    + rewrite rotl32_defined by lia. f_equal. apply rot_is_rotateLeft; lia.
Qed.

(** ** discard *)

Lemma call256_total (s : state4) :
  exists r s', Xoshiro256PP.call s = Some (r, s').
Proof. destruct s as [a b c d]. rewrite call256_unfold. eauto. Qed.

Lemma call128_total (s : state4) :
  exists r s', Xoshiro128PP.call s = Some (r, s').
Proof. destruct s as [a b c d]. rewrite call128_unfold. eauto. Qed.

Section Discard.

Variable call : M state4 Z.
Hypothesis call_total : forall s, exists r s', call s = Some (r, s').

Lemma call_times_total (n : nat) :
  forall last s, exists r s', call_times call n last s = Some (r, s').
Proof.
  induction n as [|n IH]; intros last s; cbn [call_times].
  - unfold ret. eauto.
  - unfold bind. destruct (call_total s) as (r & s' & ->). apply IH.
Qed.

(** The loop of [discard] from counter [ix], followed by one more call,
    is [n + 1] calls when [n] iterations remain. *)
Lemma for_ull_then_call (n : nat) :
  forall fuel ix z last s,
    0 <= ix -> ix + Z.of_nat n = z -> z < 2 ^ 64 -> (n < fuel)%nat ->
    (for_ull fuel ix z (call ;; ret tt) ;; call) s
    = call_times call (S n) last s.
Proof.
  induction n as [|n IH]; intros fuel ix z last s Hix Hz Hmax Hfuel.
  - destruct fuel as [|fuel]; [lia|].
    cbn [for_ull call_times].
    replace (ix <? z) with false by (symmetry; apply Z.ltb_ge; lia).
    unfold bind, ret. destruct (call s) as [[r s']|]; reflexivity.
  - destruct fuel as [|fuel]; [lia|].
    cbn [for_ull].
    replace (ix <? z) with true by (symmetry; apply Z.ltb_lt; lia).
    rewrite wrap_small by lia.
    change (call_times call (S (S n)) last s)
      with ((r <- call;; call_times call (S n) r) s).
    unfold bind at 1 2 3 5. unfold ret at 1.
    destruct (call s) as [[r s']|]; [|reflexivity].
    apply (IH fuel (ix + 1) z r s'); lia.
Qed.

Lemma for_ull_zero (fuel : nat) (s : state4) :
  for_ull (S fuel) 0 0 (call ;; ret tt) s = Some (tt, s).
Proof. reflexivity. Qed.

End Discard.

(** C7. For every state and every count [z] an [unsigned long long] holds,
    [discard(z)] followed by [operator()] is [z + 1] calls of [operator()]
    of which the last result is kept: same value, same final state, and that
    result exists. [discard(0)] leaves the state as it is. This holds for
    both engines. *)
Theorem discard_then_call (z : Z) (s : state4) :
  0 <= z < 2 ^ 64 ->
  ((Xoshiro256PP.discard z ;; Xoshiro256PP.call) s
   = call_times Xoshiro256PP.call (S (Z.to_nat z)) 0 s /\
   (exists r s', call_times Xoshiro256PP.call (S (Z.to_nat z)) 0 s = Some (r, s')) /\
   Xoshiro256PP.discard 0 s = Some (tt, s)) /\
  ((Xoshiro128PP.discard z ;; Xoshiro128PP.call) s
   = call_times Xoshiro128PP.call (S (Z.to_nat z)) 0 s /\
   (exists r s', call_times Xoshiro128PP.call (S (Z.to_nat z)) 0 s = Some (r, s')) /\
   Xoshiro128PP.discard 0 s = Some (tt, s)).
Proof.
  intros Hz. split; (split; [|split]).
  - unfold Xoshiro256PP.discard. apply for_ull_then_call; lia.
  - apply call_times_total. exact call256_total.
  - reflexivity.
  - unfold Xoshiro128PP.discard. apply for_ull_then_call; lia.
  - apply call_times_total. exact call128_total.
  - reflexivity.
Qed.

Lemma discard_then_call_witness :
  0 <= 3 < 2 ^ 64 /\
  (((Xoshiro256PP.discard 3 ;; Xoshiro256PP.call) Xoshiro256PP.default_state
    = call_times Xoshiro256PP.call (S (Z.to_nat 3)) 0 Xoshiro256PP.default_state /\
    (exists r s', call_times Xoshiro256PP.call (S (Z.to_nat 3)) 0
                    Xoshiro256PP.default_state = Some (r, s')) /\
    Xoshiro256PP.discard 0 Xoshiro256PP.default_state
    = Some (tt, Xoshiro256PP.default_state)) /\
   ((Xoshiro128PP.discard 3 ;; Xoshiro128PP.call) Xoshiro256PP.default_state
    = call_times Xoshiro128PP.call (S (Z.to_nat 3)) 0 Xoshiro256PP.default_state /\
    (exists r s', call_times Xoshiro128PP.call (S (Z.to_nat 3)) 0
                    Xoshiro256PP.default_state = Some (r, s')) /\
    Xoshiro128PP.discard 0 Xoshiro256PP.default_state
    = Some (tt, Xoshiro256PP.default_state))).
Proof.
  split; [lia|].
  apply (discard_then_call 3 Xoshiro256PP.default_state). lia.
Defined.

(** ** Object representations and the stream operators *)

Lemma to_bytes_length (e : byte_order) (n : nat) (x : Z) :
  length (to_bytes e n x) = n.
Proof.
  destruct e; cbn [to_bytes].
  - apply length_le_split.
  - rewrite length_rev. apply length_le_split.
Qed.

Lemma from_to_bytes (e : byte_order) (n : nat) (x : Z) :
  from_bytes e (to_bytes e n x) = x mod 2 ^ (Z.of_nat n * 8).
Proof.
  destruct e; cbn [to_bytes from_bytes].
  - apply le_combine_split.
  - rewrite rev_involutive. apply le_combine_split.
Qed.

Lemma from_to_bytes_word (e : byte_order) (n : nat) (x : Z) :
  0 <= x < 2 ^ (Z.of_nat n * 8) -> from_bytes e (to_bytes e n x) = x.
Proof. intros H. rewrite from_to_bytes. apply Z.mod_small. assumption. Qed.

Lemma to_bytes_inj (e : byte_order) (n : nat) (x y : Z) :
  0 <= x < 2 ^ (Z.of_nat n * 8) -> 0 <= y < 2 ^ (Z.of_nat n * 8) ->
  to_bytes e n x = to_bytes e n y -> x = y.
Proof.
  intros Hx Hy E.
  rewrite <- (from_to_bytes_word e n x Hx), <- (from_to_bytes_word e n y Hy).
  rewrite E. reflexivity.
Qed.

Lemma firstn_length_app {A : Type} (l r : list A) :
  firstn (length l) (l ++ r) = l.
Proof. induction l as [|x l IH]; cbn; [reflexivity | rewrite IH; reflexivity]. Qed.

Lemma skipn_length_app {A : Type} (l r : list A) :
  skipn (length l) (l ++ r) = r.
Proof. induction l as [|x l IH]; cbn; [reflexivity | exact IH]. Qed.

(** Reading a block that is wholly there stores it and leaves the stream
    good, whatever the destination held. *)
Lemma ist_read_block (n : nat) (old bs rest : list byte) :
  length old = n -> length bs = n ->
  ist_read n old (IStream (bs ++ rest) true) = (bs, IStream rest true).
Proof.
  intros Hold Hbs. rewrite <- Hbs in Hold |- *. clear Hbs.
  unfold ist_read, memcpy. cbn [good pending].
  rewrite firstn_length_app, skipn_length_app.
  rewrite firstn_all.
  rewrite <- Hold, skipn_all, app_nil_r.
  rewrite length_app.
  replace (length old <=? length bs + length rest)%nat with true
    by (symmetry; apply Nat.leb_le; lia).
  reflexivity.
Qed.

Lemma read_word_block (e : byte_order) (n : nat) (old x : Z) (rest : list byte) :
  0 <= x < 2 ^ (Z.of_nat n * 8) ->
  read_word e n old (IStream (to_bytes e n x ++ rest) true) = (x, IStream rest true).
Proof.
  intros Hx. unfold read_word.
  rewrite ist_read_block by apply to_bytes_length.
  rewrite from_to_bytes_word by assumption. reflexivity.
Qed.

Lemma ist_get_any (b : byte) (rest : list byte) :
  ist_get (IStream (b :: rest) true) = IStream rest true.
Proof. reflexivity. Qed.

(** [operator>>] on a framed input, whatever the three separator bytes. *)
Lemma read_state_framed (e : byte_order) (n : nat) (s0 s : state4)
      (b1 b2 b3 : byte) (rest : list byte) :
  wf_state (Z.of_nat n * 8) s ->
  read_state e n s0 (IStream (Spec.framed e n s b1 b2 b3 ++ rest) true)
  = (s, IStream rest true).
Proof.
  destruct s as [a b c d]. intros (Ha & Hb & Hc & Hd). cbn [st0 st1 st2 st3] in *.
  unfold read_state, Spec.framed. cbn [st0 st1 st2 st3].
  repeat (rewrite <- app_assoc; cbn [app]).
  rewrite read_word_block by assumption. rewrite ist_get_any.
  rewrite read_word_block by assumption. rewrite ist_get_any.
  rewrite read_word_block by assumption. rewrite ist_get_any.
  rewrite read_word_block by assumption.
  reflexivity.
Qed.

Lemma write_state_framed (e : byte_order) (n : nat) (s : state4) (ost : ostream) :
  write_state e n s ost = ost ++ Spec.framed e n s space space space.
Proof.
  unfold write_state, ost_write, ost_put, Spec.framed.
  repeat (rewrite <- app_assoc; cbn [app]). reflexivity.
Qed.

(** C8. [operator>>] does not look at the bytes in the separator
    positions: for every state and every three bytes put there, the stream
    stays good and the engine holds the state the four word blocks encode,
    whatever it held before. This holds for both engines. *)
Theorem read_ignores_separators (e : byte_order) (s s' before : state4)
        (b1 b2 b3 : byte) (rest : list byte) :
  wf_state 64 s -> wf_state 32 s' ->
  Xoshiro256PP.read e (IStream (Spec.framed e 8 s b1 b2 b3 ++ rest) true) before
  = (s, IStream rest true) /\
  Xoshiro128PP.read e (IStream (Spec.framed e 4 s' b1 b2 b3 ++ rest) true) before
  = (s', IStream rest true).
Proof.
  intros H H'. split.
  - apply read_state_framed. exact H.
  - apply read_state_framed. exact H'.
Qed.

Lemma wf_default256 : wf_state 64 Xoshiro256PP.default_state.
Proof. unfold wf_state, Xoshiro256PP.default_state. cbn. lia. Qed.

Lemma wf_default128 : wf_state 32 Xoshiro128PP.default_state.
Proof. unfold wf_state, Xoshiro128PP.default_state. cbn. lia. Qed.

Lemma read_ignores_separators_witness :
  (wf_state 64 Xoshiro256PP.default_state /\
   wf_state 32 Xoshiro128PP.default_state) /\
  (Xoshiro256PP.read LittleEndian
     (IStream (Spec.framed LittleEndian 8 Xoshiro256PP.default_state
                 Byte.x00 Byte.x41 Byte.xff ++ []) true) zero_state
   = (Xoshiro256PP.default_state, IStream [] true) /\
   Xoshiro128PP.read LittleEndian
     (IStream (Spec.framed LittleEndian 4 Xoshiro128PP.default_state
                 Byte.x00 Byte.x41 Byte.xff ++ []) true) zero_state
   = (Xoshiro128PP.default_state, IStream [] true)).
Proof.
  split; [split; [exact wf_default256 | exact wf_default128]|].
  exact (read_ignores_separators LittleEndian _ _ zero_state
           Byte.x00 Byte.x41 Byte.xff [] wf_default256 wf_default128).
Defined.

(** C5. For every state of either engine, what [operator<<] writes is read
    back by [operator>>] as the same four words, with the stream still good
    and positioned after the snapshot; the restored engine then produces
    the same outputs as the original one, however many are drawn. *)
Theorem serialize_roundtrip (e : byte_order) (s s' before : state4)
        (rest : list byte) (n : nat) :
  wf_state 64 s -> wf_state 32 s' ->
  (Xoshiro256PP.read e (IStream (Xoshiro256PP.write e [] s ++ rest) true) before
   = (s, IStream rest true) /\
   outputs Xoshiro256PP.call n
     (fst (Xoshiro256PP.read e (IStream (Xoshiro256PP.write e [] s ++ rest) true) before))
   = outputs Xoshiro256PP.call n s) /\
  (Xoshiro128PP.read e (IStream (Xoshiro128PP.write e [] s' ++ rest) true) before
   = (s', IStream rest true) /\
   outputs Xoshiro128PP.call n
     (fst (Xoshiro128PP.read e (IStream (Xoshiro128PP.write e [] s' ++ rest) true) before))
   = outputs Xoshiro128PP.call n s').
Proof.
  intros H H'.
  unfold Xoshiro256PP.read, Xoshiro256PP.write, Xoshiro128PP.read, Xoshiro128PP.write.
  rewrite !write_state_framed. cbn [app].
  rewrite (read_state_framed e 8 before s) by exact H.
  rewrite (read_state_framed e 4 before s') by exact H'.
  cbn [fst]. repeat split; reflexivity.
Qed.

Lemma serialize_roundtrip_witness :
  (wf_state 64 Xoshiro256PP.default_state /\
   wf_state 32 Xoshiro128PP.default_state) /\
  ((Xoshiro256PP.read BigEndian
      (IStream (Xoshiro256PP.write BigEndian [] Xoshiro256PP.default_state ++ []) true)
      zero_state
    = (Xoshiro256PP.default_state, IStream [] true) /\
    outputs Xoshiro256PP.call 2
      (fst (Xoshiro256PP.read BigEndian
              (IStream (Xoshiro256PP.write BigEndian [] Xoshiro256PP.default_state ++ [])
                 true) zero_state))
    = outputs Xoshiro256PP.call 2 Xoshiro256PP.default_state) /\
   (Xoshiro128PP.read BigEndian
      (IStream (Xoshiro128PP.write BigEndian [] Xoshiro128PP.default_state ++ []) true)
      zero_state
    = (Xoshiro128PP.default_state, IStream [] true) /\
    outputs Xoshiro128PP.call 2
      (fst (Xoshiro128PP.read BigEndian
              (IStream (Xoshiro128PP.write BigEndian [] Xoshiro128PP.default_state ++ [])
                 true) zero_state))
    = outputs Xoshiro128PP.call 2 Xoshiro128PP.default_state)).
Proof.
  split; [split; [exact wf_default256 | exact wf_default128]|].
  exact (serialize_roundtrip BigEndian _ _ zero_state [] 2
           wf_default256 wf_default128).
Defined.

(** ** The comparison operators *)

Lemma memcmp_same (p : list byte) (n : nat) : memcmp p p n = 0.
Proof.
  revert n. induction p as [|x p IH]; intros [|n]; cbn [memcmp]; try reflexivity.
  rewrite Z.eqb_refl. apply IH.
Qed.

Lemma memcmp_differ (p q : list byte) :
  length p = length q -> p <> q -> memcmp p q (length p) <> 0.
Proof.
  revert q. induction p as [|x p IH]; intros [|y q] Hlen Hne; cbn in Hlen;
    try discriminate; [congruence|].
  cbn [length memcmp].
  destruct (Z.eqb_spec (byte.unsigned x) (byte.unsigned y)) as [E | E].
  - apply byte.unsigned_inj in E. subst y.
    apply IH; [lia | congruence].
  - lia.
Qed.

Lemma state_bytes_length (e : byte_order) (n : nat) (s : state4) :
  length (state_bytes e n s) = (4 * n)%nat.
Proof.
  unfold state_bytes. rewrite !length_app, !to_bytes_length. lia.
Qed.

Lemma app_inj_length {A : Type} (l1 l2 r1 r2 : list A) :
  length l1 = length l2 -> l1 ++ r1 = l2 ++ r2 -> l1 = l2 /\ r1 = r2.
Proof.
  revert l2. induction l1 as [|x l1 IH]; intros [|y l2] Hlen E; cbn in *;
    try discriminate; [auto|].
  injection E as -> E. destruct (IH l2 ltac:(lia) E) as [-> ->]. auto.
Qed.

Lemma state_bytes_inj (e : byte_order) (n : nat) (a b : state4) :
  wf_state (Z.of_nat n * 8) a -> wf_state (Z.of_nat n * 8) b ->
  state_bytes e n a = state_bytes e n b -> a = b.
Proof.
  destruct a as [a0 a1 a2 a3], b as [b0 b1 b2 b3].
  intros (A0 & A1 & A2 & A3) (B0 & B1 & B2 & B3) E.
  cbn [st0 st1 st2 st3] in *. unfold state_bytes in E. cbn [st0 st1 st2 st3] in E.
  apply app_inj_length in E; [|rewrite !to_bytes_length; reflexivity].
  destruct E as [E0 E].
  apply app_inj_length in E; [|rewrite !to_bytes_length; reflexivity].
  destruct E as [E1 E].
  apply app_inj_length in E; [|rewrite !to_bytes_length; reflexivity].
  destruct E as [E2 E3].
  apply to_bytes_inj in E0, E1, E2, E3; try assumption.
  congruence.
Qed.

(** What [operator==] computes: it answers [true] exactly when the two
    states differ. *)
Lemma op_eq256_true_iff_differ (e : byte_order) (a b : state4) :
  wf_state 64 a -> wf_state 64 b ->
  (Xoshiro256PP.op_eq e a b = true <-> a <> b).
Proof.
  intros Ha Hb. unfold Xoshiro256PP.op_eq, bool_of_int.
  rewrite negb_true_iff, Z.eqb_neq.
  rewrite <- (state_bytes_length e 8 a).
  split.
  - intros Hcmp ->. apply Hcmp. apply memcmp_same.
  - intros Hne. apply memcmp_differ.
    + rewrite !state_bytes_length. reflexivity.
    + intros E. apply Hne. exact (state_bytes_inj e 8 a b Ha Hb E).
Qed.

Lemma op_eq128_true_iff_differ (e : byte_order) (a b : state4) :
  wf_state 32 a -> wf_state 32 b ->
  (Xoshiro128PP.op_eq e a b = true <-> a <> b).
Proof.
  intros Ha Hb. unfold Xoshiro128PP.op_eq, bool_of_int.
  rewrite negb_true_iff, Z.eqb_neq.
  rewrite <- (state_bytes_length e 4 a).
  split.
  - intros Hcmp ->. apply Hcmp. apply memcmp_same.
  - intros Hne. apply memcmp_differ.
    + rewrite !state_bytes_length. reflexivity.
    + intros E. apply Hne. exact (state_bytes_inj e 4 a b Ha Hb E).
Qed.

(** C4, at the input where the code departs from it. An engine compared
    with itself (or with any engine in the same state) is reported unequal
    by [operator==] and equal by [operator!=]; two engines in different
    states, such as the default one and the all-zero one, are reported
    equal by [operator==]. *)
Theorem op_eq_is_inverted (e : byte_order) (a : state4) :
  Xoshiro256PP.op_eq e a a = false /\
  Xoshiro256PP.op_ne e a a = true /\
  Xoshiro256PP.op_eq e Xoshiro256PP.default_state zero_state = true /\
  Xoshiro256PP.op_ne e Xoshiro256PP.default_state zero_state = false /\
  Xoshiro128PP.op_eq e a a = false /\
  Xoshiro128PP.op_ne e a a = true.
Proof.
  unfold Xoshiro256PP.op_eq, Xoshiro256PP.op_ne,
    Xoshiro128PP.op_eq, Xoshiro128PP.op_ne.
  rewrite !memcmp_same.
  repeat split; try reflexivity; destruct e; vm_compute; reflexivity.
Qed.

(** ** The two halves of a 64-bit word *)

Lemma mask32 (x : Z) : Z.land x 0xffffffff = x mod 2 ^ 32.
Proof. change 0xffffffff with (Z.ones 32). apply Z.land_ones. lia. Qed.

Lemma shiftr32_small (x : Z) : 0 <= x < 2 ^ 64 -> Z.shiftr x 32 mod 2 ^ 32 = Z.shiftr x 32.
Proof.
  intros Hx. apply Z.mod_small. rewrite Z.shiftr_div_pow2 by lia.
  split; [apply Z.div_pos; lia|].
  apply Z.div_lt_upper_bound; lia.
Qed.

Lemma le_split_upper (x : Z) : skipn 4 (le_split 8 x) = le_split 4 (Z.shiftr x 32).
Proof.
  cbv [le_split skipn].
  rewrite !Z.shiftr_shiftr by lia. reflexivity.
Qed.

Lemma le_split_lower (x : Z) : firstn 4 (le_split 8 x) = le_split 4 x.
Proof. reflexivity. Qed.

Lemma extract_left_little (x : Z) :
  extract_32bits_from64_left LittleEndian x = Spec.lowHalf x.
Proof.
  unfold extract_32bits_from64_left, memcpy, Spec.lowHalf.
  cbn [to_bytes from_bytes repeat skipn].
  rewrite le_split_lower, app_nil_r, le_combine_split, mask32. reflexivity.
Qed.

Lemma extract_right_little (x : Z) :
  0 <= x < 2 ^ 64 ->
  extract_32bits_from64_right LittleEndian x = Spec.highHalf x.
Proof.
  intros Hx.
  unfold extract_32bits_from64_right, memcpy, Spec.highHalf.
  cbn [to_bytes from_bytes repeat].
  rewrite le_split_upper.
  change (firstn 4 (le_split 4 (Z.shiftr x 32))) with (le_split 4 (Z.shiftr x 32)).
  cbn [skipn]. rewrite app_nil_r, le_combine_split.
  apply shiftr32_small. assumption.
Qed.

Lemma rev_le_split_8 (x : Z) :
  rev (le_split 8 x) = rev (skipn 4 (le_split 8 x)) ++ rev (le_split 4 x).
Proof. reflexivity. Qed.

Lemma extract_left_big (x : Z) :
  0 <= x < 2 ^ 64 ->
  extract_32bits_from64_left BigEndian x = Spec.highHalf x.
Proof.
  intros Hx.
  unfold extract_32bits_from64_left, memcpy, Spec.highHalf.
  cbn [to_bytes from_bytes repeat].
  rewrite rev_le_split_8, le_split_upper.
  rewrite (firstn_length_app (rev (le_split 4 (Z.shiftr x 32))) (rev (le_split 4 x))
           : firstn 4 _ = _).
  cbn [skipn]. rewrite app_nil_r, rev_involutive.
  rewrite le_combine_split. apply shiftr32_small. assumption.
Qed.

Lemma extract_right_big (x : Z) :
  extract_32bits_from64_right BigEndian x = Spec.lowHalf x.
Proof.
  unfold extract_32bits_from64_right, memcpy, Spec.lowHalf.
  cbn [to_bytes from_bytes repeat].
  rewrite rev_le_split_8, le_split_upper.
  rewrite (skipn_length_app (rev (le_split 4 (Z.shiftr x 32))) (rev (le_split 4 x))
           : skipn 4 _ = _).
  change (firstn 4 (rev (le_split 4 x))) with (rev (le_split 4 x)).
  cbn [skipn]. rewrite app_nil_r, rev_involutive.
  rewrite le_combine_split, mask32. reflexivity.
Qed.

(** On a host of byte order [e], "left" is the half stored first and
    "right" the half stored second. *)
Lemma extract_left_first (e : byte_order) (x : Z) :
  0 <= x < 2 ^ 64 -> extract_32bits_from64_left e x = Spec.firstHalf e x.
Proof.
  intros Hx. destruct e; cbn [Spec.firstHalf].
  - apply extract_left_little.
  - apply extract_left_big. assumption.
Qed.

Lemma extract_right_second (e : byte_order) (x : Z) :
  0 <= x < 2 ^ 64 -> extract_32bits_from64_right e x = Spec.secondHalf e x.
Proof.
  intros Hx. destruct e; cbn [Spec.secondHalf].
  - apply extract_right_little. assumption.
  - apply extract_right_big.
Qed.

(** ** splitmix64 and seeding *)

Lemma splitmix64_defined (s : Z) :
  exists v, splitmix64 s = Some v /\ 0 <= v < 2 ^ 64.
Proof.
  unfold splitmix64. rewrite !shr_defined by lia. cbn [obind].
  eexists. split; [reflexivity|].
  apply lxor_range.
  - apply wrap_range. lia.
  - apply shiftr_range; [apply wrap_range|]; lia.
Qed.

Lemma splitmix64_of_zero : splitmix64 0 = Some 0xe220a8397b1dcdaf.
Proof. vm_compute. reflexivity. Qed.

(** Seeding Xoshiro256PP from a scalar always succeeds, and the state it
    leaves has a word that is not zero: if word 0 is zero, word 1 is
    [splitmix64(0)]. *)
Lemma seed256_nonzero (s : Z) (st : state4) :
  exists st', Xoshiro256PP.seed s st = Some (tt, st') /\
              wf_state 64 st' /\ st' <> zero_state.
Proof.
  destruct (splitmix64_defined s) as (x & Ex & _).
  destruct (splitmix64_defined x) as (x0 & E0 & R0).
  destruct (splitmix64_defined x0) as (x1 & E1 & R1).
  destruct (splitmix64_defined x1) as (x2 & E2 & R2).
  destruct (splitmix64_defined x2) as (x3 & E3 & R3).
  exists (State4 x0 x1 x2 x3).
  split; [|split].
  - unfold Xoshiro256PP.seed, bind, lift, load, store. cbn [st0 st1 st2 st3].
    rewrite Ex, E0. cbn [st0 st1 st2 st3]. rewrite E1. cbn [st0 st1 st2 st3].
    rewrite E2. cbn [st0 st1 st2 st3]. rewrite E3. reflexivity.
  - unfold wf_state. cbn [st0 st1 st2 st3]. auto.
  - unfold zero_state. intros E. injection E as Z0 Z1 _ _. subst x0 x1.
    rewrite splitmix64_of_zero in E1. discriminate.
Qed.

Lemma default_states_nonzero :
  Xoshiro256PP.default_state <> zero_state /\
  Xoshiro128PP.default_state <> zero_state.
Proof. split; discriminate. Qed.

(** Seeding Xoshiro128PP from a scalar can leave two of the four words at
    zero. *)
Lemma seed128_two_zero_words (e : byte_order) (st : state4) :
  Xoshiro128PP.seed e 0xf2088d2e98844044 st
  = Some (tt, match e with
              | LittleEndian => State4 0 0 0xcb123343 0x50b2160c
              | BigEndian => State4 0 0 0x50b2160c 0xcb123343
              end).
Proof. destruct e; vm_compute; reflexivity. Qed.

(** C2, as the code has it. Seeding Xoshiro128PP from a 64-bit scalar [s]
    always succeeds and sets, with [t1 = splitmix64(s)] and
    [t2 = splitmix64(t1)], words 0 and 2 from the half of [t1] and [t2]
    stored at the lower address and words 1 and 3 from the half stored at
    the higher address, each zero-extended, expanded and truncated to 32
    bits. The half stored first is the high half on a big-endian host and
    the low half on a little-endian one. *)
Theorem seed128_takes_halves_in_storage_order (e : byte_order) (s : Z) (st : state4) :
  exists st',
    Xoshiro128PP.seed e s st = Some (tt, st') /\
    Spec.seed128_with (Spec.firstHalf e) (Spec.secondHalf e) s = Some st' /\
    wf_state 32 st' /\
    Spec.seed128_with (Spec.firstHalf BigEndian) (Spec.secondHalf BigEndian) s
    = Spec.seed128 s.
Proof.
  destruct (splitmix64_defined s) as (t1 & E1 & R1).
  destruct (splitmix64_defined t1) as (t2 & E2 & R2).
  destruct (splitmix64_defined (Spec.firstHalf e t1)) as (x0 & E3 & _).
  destruct (splitmix64_defined (Spec.secondHalf e t1)) as (x1 & E4 & _).
  destruct (splitmix64_defined (Spec.firstHalf e t2)) as (x2 & E5 & _).
  destruct (splitmix64_defined (Spec.secondHalf e t2)) as (x3 & E6 & _).
  exists (State4 (wrap 32 x0) (wrap 32 x1) (wrap 32 x2) (wrap 32 x3)).
  split; [|split; [|split]].
  - unfold Xoshiro128PP.seed, bind, lift, store.
    rewrite E1, E2.
    rewrite !extract_left_first, !extract_right_second by assumption.
    rewrite E3, E4, E5, E6. reflexivity.
  - unfold Spec.seed128_with, Spec.expand.
    rewrite E1. cbn [obind]. rewrite E2. cbn [obind].
    rewrite E3. cbn [obind]. rewrite E4. cbn [obind].
    rewrite E5. cbn [obind]. rewrite E6. reflexivity.
  - unfold wf_state. cbn [st0 st1 st2 st3].
    repeat split; apply wrap_range; lia.
  - reflexivity.
Qed.

(** C2 as the specification states it fails on a little-endian host: from
    the scalar 0 the code does not produce the state built from the high
    half first. *)
Lemma seed128_high_first_counterexample :
  Spec.seed128 0 = Some (State4 426665300 1653378023 2285082621 1752293949) /\
  Xoshiro128PP.seed LittleEndian 0 zero_state
  = Some (tt, State4 1653378023 426665300 1752293949 2285082621) /\
  Xoshiro128PP.seed LittleEndian 0 zero_state
  <> option_map (pair tt) (Spec.seed128 0).
Proof.
  split; [|split]; vm_compute; (reflexivity || discriminate).
Qed.

(** ** Seeding Xoshiro128PP from a 32-bit scalar *)

Lemma seed32_ignores_scalar (e : byte_order) (indeterminate s : Z) (st : state4) :
  Xoshiro128PP.seed32 e indeterminate s st = Xoshiro128PP.seed e indeterminate st.
Proof. reflexivity. Qed.

(** What the two helpers would have left in [temp] had they received it by
    reference: the widened scalar. *)
Lemma assign_both_halves_widen :
  assign_32bits_to64_right_local LittleEndian
    (assign_32bits_to64_left_local LittleEndian 0 0xdeadbeef) 0xdeadbeef
  = Spec.widen 0xdeadbeef.
Proof. vm_compute. reflexivity. Qed.

(** C3, where the code departs from it. The state after
    [seed(std::uint32_t)] is the one the 64-bit overload derives from the
    unassigned local [temp]: it does not depend on the scalar, so whatever
    [temp] holds, the result cannot be that of seeding from the widened
    scalar for both of the scalars 1 and 2. *)
Theorem seed32_does_not_widen (e : byte_order) (indeterminate : Z) (st : state4) :
  (forall s, Xoshiro128PP.seed32 e indeterminate s st
             = Xoshiro128PP.seed e indeterminate st) /\
  ~ (Xoshiro128PP.seed32 e indeterminate 1 st
     = Xoshiro128PP.seed e (Spec.widen 1) st /\
     Xoshiro128PP.seed32 e indeterminate 2 st
     = Xoshiro128PP.seed e (Spec.widen 2) st).
Proof.
  split; [intros s; apply seed32_ignores_scalar|].
  intros [H1 H2]. rewrite seed32_ignores_scalar in H1, H2.
  rewrite H1 in H2. clear H1.
  destruct e; vm_compute in H2; discriminate.
Qed.

(** ** The transition of Xoshiro256PP as a map on states *)

Lemma lxor_cancel_l (x y z : Z) : Z.lxor x y = Z.lxor x z -> y = z.
Proof.
  intros E.
  rewrite <- (Z.lxor_0_l y), <- (Z.lxor_0_l z), <- (Z.lxor_nilpotent x).
  rewrite !Z.lxor_assoc, E. reflexivity.
Qed.

Lemma lxor_cancel_r (x y z : Z) : Z.lxor y x = Z.lxor z x -> y = z.
Proof. rewrite (Z.lxor_comm y), (Z.lxor_comm z). apply lxor_cancel_l. Qed.

Lemma lxor_fixed (x y : Z) : Z.lxor x y = x -> y = 0.
Proof.
  intros E. apply (lxor_cancel_l x). rewrite Z.lxor_0_r. exact E.
Qed.

Lemma lxor_middle (x q y : Z) : Z.lxor (Z.lxor x q) (Z.lxor q y) = Z.lxor x y.
Proof.
  rewrite Z.lxor_assoc, <- (Z.lxor_assoc q q y), Z.lxor_nilpotent, Z.lxor_0_l.
  reflexivity.
Qed.

(** The rotation expression is one-to-one on [w]-bit words. *)
Lemma rot_inj (w k x y : Z) :
  0 <= x < 2 ^ w -> 0 <= y < 2 ^ w -> 0 < k < w ->
  Z.lor (wrap w (Z.shiftl x k)) (Z.shiftr x (w - k))
  = Z.lor (wrap w (Z.shiftl y k)) (Z.shiftr y (w - k)) ->
  x = y.
Proof.
  intros Hx Hy Hk E. apply Z.bits_inj'. intros i Hi.
  destruct (Z.lt_ge_cases i w) as [Hlt | Hge].
  - assert (Hj : 0 <= (i + k) mod w < w) by (apply Z.mod_pos_bound; lia).
    assert (Hback : ((i + k) mod w - k) mod w = i).
    { rewrite Zminus_mod_idemp_l.
      replace (i + k - k) with i by lia. apply Z.mod_small. lia. }
    rewrite <- Hback.
    rewrite <- (rot_testbit w x k ((i + k) mod w)) by assumption.
    rewrite <- (rot_testbit w y k ((i + k) mod w)) by assumption.
    rewrite E. reflexivity.
  - rewrite (testbit_high w x i), (testbit_high w y i) by assumption.
    reflexivity.
Qed.

(** [x ^ (x << k)] determines [x]: bit by bit from the bottom. *)
Lemma xorshift_inj (w k x y : Z) :
  0 <= w -> 0 < k ->
  Z.lxor x (wrap w (Z.shiftl x k)) = Z.lxor y (wrap w (Z.shiftl y k)) ->
  x = y.
Proof.
  intros Hw Hk E. apply Z.bits_inj'.
  apply (Z_lt_induction (fun i => Z.testbit x i = Z.testbit y i)).
  intros i IH.
  destruct (Z.lt_ge_cases i 0) as [Hneg | Hpos].
  - rewrite !Z.testbit_neg_r by assumption. reflexivity.
  - assert (Ei := f_equal (fun v => Z.testbit v i) E). cbn beta in Ei.
    rewrite !Z.lxor_spec, !testbit_wrap, !Z.shiftl_spec in Ei by assumption.
    destruct (Z.lt_ge_cases (i - k) 0) as [Hlow | Hhigh].
    + rewrite !(Z.testbit_neg_r _ (i - k)) in Ei by assumption.
      rewrite !andb_false_r, !xorb_false_r in Ei. exact Ei.
    + rewrite (IH (i - k)) in Ei by lia.
      destruct (Z.testbit x i), (Z.testbit y i), ((i <? w) && Z.testbit y (i - k));
        cbn in Ei; congruence.
Qed.

Lemma state4_eq_inv (a b c d a' b' c' d' : Z) :
  State4 a b c d = State4 a' b' c' d' -> a = a' /\ b = b' /\ c = c' /\ d = d'.
Proof. intros E. injection E. auto. Qed.

Lemma some_pair_inv {A B : Type} (a a' : A) (b b' : B) :
  Some (a, b) = Some (a', b') -> a = a' /\ b = b'.
Proof. intros E. injection E. auto. Qed.

Lemma wf_transition256 (s : state4) :
  wf_state 64 s ->
  forall r s', Xoshiro256PP.call s = Some (r, s') -> wf_state 64 s'.
Proof.
  destruct s as [a b c d]. intros (Ha & Hb & Hc & Hd) r s'.
  cbn [st0 st1 st2 st3] in *.
  rewrite call256_unfold. intros E. apply some_pair_inv in E as [_ <-].
  unfold wf_state. cbn [st0 st1 st2 st3].
  assert (0 <= wrap 64 (Z.shiftl b 17) < 2 ^ 64) by (apply wrap_range; lia).
  assert (0 <= Z.lxor d b < 2 ^ 64) by (apply lxor_range; assumption).
  assert (0 <= Z.lxor c a < 2 ^ 64) by (apply lxor_range; assumption).
  split; [|split; [|split]]; try (apply lxor_range; assumption).
  apply (rot_range 64 (Z.lxor d b) 45); [assumption | lia].
Qed.

Lemma transition256_inj (a b : state4) :
  wf_state 64 a -> wf_state 64 b ->
  forall ra rb t,
    Xoshiro256PP.call a = Some (ra, t) ->
    Xoshiro256PP.call b = Some (rb, t) ->
    a = b.
Proof.
  destruct a as [a0 a1 a2 a3], b as [b0 b1 b2 b3].
  intros (A0 & A1 & A2 & A3) (B0 & B1 & B2 & B3) ra rb t.
  cbn [st0 st1 st2 st3] in *.
  rewrite !call256_unfold. intros Ea Eb.
  apply some_pair_inv in Ea as [_ Ta]. apply some_pair_inv in Eb as [_ Tb].
  rewrite <- Tb in Ta. apply state4_eq_inv in Ta as (E0 & E1 & E2 & E3).
  assert (P : Z.lxor a3 a1 = Z.lxor b3 b1).
  { apply (rot_inj 64 45); [apply lxor_range | apply lxor_range | lia | exact E3];
      assumption. }
  assert (H0 : a0 = b0).
  { rewrite P in E0. apply lxor_cancel_r in E0. exact E0. }
  assert (H1 : a1 = b1).
  { apply (xorshift_inj 64 17); try lia.
    assert (X : Z.lxor (Z.lxor a1 (Z.lxor a2 a0))
                       (Z.lxor (Z.lxor a2 a0) (wrap 64 (Z.shiftl a1 17)))
                = Z.lxor (Z.lxor b1 (Z.lxor b2 b0))
                         (Z.lxor (Z.lxor b2 b0) (wrap 64 (Z.shiftl b1 17))))
      by (rewrite E1, E2; reflexivity).
    rewrite !lxor_middle in X. exact X. }
  subst b0 b1.
  apply lxor_cancel_l in E1. apply lxor_cancel_r in E1.
  apply lxor_cancel_r in P.
  congruence.
Qed.

Lemma call256_zero : Xoshiro256PP.call zero_state = Some (0, zero_state).
Proof. vm_compute. reflexivity. Qed.

Lemma transition256_fixed_point (s : state4) (r : Z) :
  Xoshiro256PP.call s = Some (r, s) -> s = zero_state.
Proof.
  destruct s as [a b c d]. rewrite call256_unfold.
  intros E. apply some_pair_inv in E as [_ E].
  apply state4_eq_inv in E as (E0 & E1 & E2 & E3).
  apply lxor_fixed in E0. apply lxor_fixed in E1.
  rewrite E0 in E3. cbn in E3. subst d.
  rewrite Z.lxor_0_l in E0. subst b.
  rewrite E1 in E2. cbn in E2. subst c.
  rewrite Z.lxor_0_l in E1. subst a.
  reflexivity.
Qed.

(** C10. On the 64-bit states of Xoshiro256PP, [operator()] always has a
    result and its state transition is one-to-one: two states that advance
    to the same state are the same state. The all-zero state advances to
    itself with output 0, it is the only state that advances to itself, and
    a state that is not all-zero advances to a state that is not all-zero. *)
Theorem transition256_injective_fixes_zero (a b : state4) :
  wf_state 64 a -> wf_state 64 b ->
  (exists r a', Xoshiro256PP.call a = Some (r, a') /\ wf_state 64 a' /\
                (a <> zero_state -> a' <> zero_state) /\
                (a' = a -> a = zero_state)) /\
  (forall ra rb t, Xoshiro256PP.call a = Some (ra, t) ->
                   Xoshiro256PP.call b = Some (rb, t) -> a = b) /\
  Xoshiro256PP.call zero_state = Some (0, zero_state).
Proof.
  intros Ha Hb. split; [|split].
  - destruct (call256_total a) as (r & a' & E). exists r, a'.
    split; [exact E|]. split; [exact (wf_transition256 a Ha r a' E)|]. split.
    + intros Hne Hz. subst a'. apply Hne.
      apply (transition256_inj a zero_state Ha) with r 0 zero_state.
      * unfold wf_state, zero_state. cbn. lia.
      * exact E.
      * exact call256_zero.
    + intros ->. exact (transition256_fixed_point a r E).
  - exact (transition256_inj a b Ha Hb).
  - exact call256_zero.
Qed.

Lemma transition256_injective_fixes_zero_witness :
  (wf_state 64 Xoshiro256PP.default_state /\ wf_state 64 zero_state) /\
  ((exists r a', Xoshiro256PP.call Xoshiro256PP.default_state = Some (r, a') /\
                 wf_state 64 a' /\
                 (Xoshiro256PP.default_state <> zero_state -> a' <> zero_state) /\
                 (a' = Xoshiro256PP.default_state ->
                  Xoshiro256PP.default_state = zero_state)) /\
   (forall ra rb t, Xoshiro256PP.call Xoshiro256PP.default_state = Some (ra, t) ->
                    Xoshiro256PP.call zero_state = Some (rb, t) ->
                    Xoshiro256PP.default_state = zero_state) /\
   Xoshiro256PP.call zero_state = Some (0, zero_state)).
Proof.
  assert (Hz : wf_state 64 zero_state) by (unfold wf_state, zero_state; cbn; lia).
  split; [split; [exact wf_default256 | exact Hz]|].
  exact (transition256_injective_fixes_zero _ _ wf_default256 Hz).
Defined.

(** * Further properties of the code *)

(** ** Rotations, bit by bit *)

Lemma bits_inj_range (w a b : Z) :
  0 <= a < 2 ^ w -> 0 <= b < 2 ^ w ->
  (forall i, 0 <= i < w -> Z.testbit a i = Z.testbit b i) -> a = b.
Proof.
  intros Ha Hb H. apply Z.bits_inj'. intros i Hi.
  destruct (Z.lt_ge_cases i w) as [Hlt | Hge].
  - apply H. lia.
  - rewrite (testbit_high w a i), (testbit_high w b i) by assumption.
    reflexivity.
Qed.

(** Rotating by [k] and then by [j] moves every bit by [j + k] places
    around the word. *)
Lemma rot_rot_testbit (w x j k i : Z) :
  0 <= x < 2 ^ w -> 0 < k < w -> 0 < j < w -> 0 <= i < w ->
  Z.testbit
    (Z.lor (wrap w (Z.shiftl (Z.lor (wrap w (Z.shiftl x k)) (Z.shiftr x (w - k))) j))
           (Z.shiftr (Z.lor (wrap w (Z.shiftl x k)) (Z.shiftr x (w - k))) (w - j))) i
  = Z.testbit x ((i - (j + k)) mod w).
Proof.
  intros Hx Hk Hj Hi.
  rewrite rot_testbit by (try apply rot_range; assumption).
  rewrite rot_testbit by (try (apply Z.mod_pos_bound; lia); assumption).
  f_equal. rewrite Zminus_mod_idemp_l. f_equal. lia.
Qed.

(** X1. Where it is defined, that is for a count [k] with [0 < k < 64]
    (resp. [0 < j < 32]), the result of [rotl64] (resp. [rotl32]) is again
    a 64-bit (resp. 32-bit) word, and its bit [i] is bit [(i - k) mod 64]
    (resp. [(i - j) mod 32]) of the operand. *)
Theorem rotl_moves_bits (x k y j : Z) :
  0 <= x < 2 ^ 64 -> 0 < k < 64 ->
  0 <= y < 2 ^ 32 -> 0 < j < 32 ->
  (exists r, rotl64 x k = Some r /\ 0 <= r < 2 ^ 64 /\
             forall i, 0 <= i < 64 -> Z.testbit r i = Z.testbit x ((i - k) mod 64)) /\
  (exists r, rotl32 y j = Some r /\ 0 <= r < 2 ^ 32 /\
             forall i, 0 <= i < 32 -> Z.testbit r i = Z.testbit y ((i - j) mod 32)).
Proof.
  intros Hx Hk Hy Hj. split.
  - rewrite rotl64_defined by assumption. eexists. split; [reflexivity|]. split.
    + apply rot_range; assumption.
    + intros i Hi. apply rot_testbit; assumption.
  - rewrite rotl32_defined by assumption. eexists. split; [reflexivity|]. split.
    + apply rot_range; assumption.
    + intros i Hi. apply rot_testbit; assumption.
Qed.

Lemma rotl_moves_bits_witness :
  (0 <= 5 < 2 ^ 64 /\ 0 < 3 < 64 /\ 0 <= 5 < 2 ^ 32 /\ 0 < 3 < 32) /\
  ((exists r, rotl64 5 3 = Some r /\ 0 <= r < 2 ^ 64 /\
              forall i, 0 <= i < 64 -> Z.testbit r i = Z.testbit 5 ((i - 3) mod 64)) /\
   (exists r, rotl32 5 3 = Some r /\ 0 <= r < 2 ^ 32 /\
              forall i, 0 <= i < 32 -> Z.testbit r i = Z.testbit 5 ((i - 3) mod 32))).
Proof.
  split; [lia|].
  apply (rotl_moves_bits 5 3 5 3); lia.
Defined.

(** X2. Rotations compose: rotating a 64-bit word left by [k] and then by
    [j] is rotating it by [j + k] when that is below 64, by [j + k - 64]
    when it is above, and gives the word back when [j + k = 64]. *)
Theorem rotl64_compose (x j k : Z) :
  0 <= x < 2 ^ 64 -> 0 < k < 64 -> 0 < j < 64 ->
  (r <~ rotl64 x k; rotl64 r j)
  = if j + k =? 64 then Some x
    else rotl64 x (if j + k <? 64 then j + k else j + k - 64).
Proof.
  intros Hx Hk Hj.
  rewrite (rotl64_defined x k) by assumption. cbn [obind].
  rewrite rotl64_defined by assumption.
  assert (R : 0 <= Z.lor (wrap 64 (Z.shiftl x k)) (Z.shiftr x (64 - k)) < 2 ^ 64)
    by (apply rot_range; assumption).
  destruct (Z.eqb_spec (j + k) 64) as [E | E].
  - f_equal. apply (bits_inj_range 64); [apply rot_range; assumption | assumption |].
    intros i Hi. rewrite rot_rot_testbit by assumption.
    f_equal. rewrite E. replace (i - 64) with (i + (-1) * 64) by lia.
    rewrite Z.mod_add by lia. apply Z.mod_small. assumption.
  - destruct (Z.ltb_spec (j + k) 64) as [L | L].
    + rewrite (rotl64_defined x (j + k)) by lia. f_equal.
      apply (bits_inj_range 64); try (apply rot_range; (assumption || lia)).
      intros i Hi. rewrite rot_rot_testbit by assumption.
      rewrite rot_testbit by (assumption || lia). reflexivity.
    + rewrite (rotl64_defined x (j + k - 64)) by lia. f_equal.
      apply (bits_inj_range 64); try (apply rot_range; (assumption || lia)).
      intros i Hi. rewrite rot_rot_testbit by assumption.
      rewrite rot_testbit by (assumption || lia). f_equal.
      replace (i - (j + k - 64)) with (i - (j + k) + 1 * 64) by lia.
      rewrite Z.mod_add by lia. reflexivity.
Qed.

Lemma rotl64_compose_witness :
  (0 <= 5 < 2 ^ 64 /\ 0 < 45 < 64 /\ 0 < 23 < 64) /\
  (r <~ rotl64 5 45; rotl64 r 23)
  = if 23 + 45 =? 64 then Some 5
    else rotl64 5 (if 23 + 45 <? 64 then 23 + 45 else 23 + 45 - 64).
Proof.
  split; [lia|].
  apply (rotl64_compose 5 23 45); lia.
Defined.

(** ** The advance operation of Xoshiro128PP *)

(** X3. On every state of Xoshiro128PP, [operator()] has a result: it
    returns [rotateLeft32(state[0] + state[3], 7) + state[0]] of the state
    it was called on and leaves the state of the transition with shift 9
    and rotation 11, all modulo [2^32]. *)
Theorem xoshiro128pp_call_spec (s : state4) :
  wf_state 32 s ->
  Xoshiro128PP.call s = Some (Spec.output128 s, Spec.transition128 s).
Proof.
  destruct s as [a b c d]. intros (Ha & Hb & Hc & Hd). cbn [st0 st1 st2 st3] in *.
  rewrite call128_unfold.
  unfold Spec.output128, Spec.transition128, Spec.rotateLeft32.
  cbn [st0 st1 st2 st3].
  rewrite !rot_is_rotateLeft; try lia.
  - rewrite Z.shiftl_mul_pow2 by lia. reflexivity.
  - apply lxor_range; assumption.
  - apply wrap_range. lia.
Qed.

Lemma xoshiro128pp_call_spec_witness :
  wf_state 32 Xoshiro128PP.default_state /\
  Xoshiro128PP.call Xoshiro128PP.default_state
  = Some (Spec.output128 Xoshiro128PP.default_state,
          Spec.transition128 Xoshiro128PP.default_state).
Proof.
  split; [exact wf_default128 | exact (xoshiro128pp_call_spec _ wf_default128)].
Defined.

Lemma wf_zero (w : Z) : 0 <= w -> wf_state w zero_state.
Proof.
  intros Hw. assert (0 < 2 ^ w) by (apply Z.pow_pos_nonneg; lia).
  unfold wf_state, zero_state. cbn [st0 st1 st2 st3]. lia.
Qed.

Lemma wf_transition128 (s : state4) :
  wf_state 32 s ->
  forall r s', Xoshiro128PP.call s = Some (r, s') -> wf_state 32 s'.
Proof.
  destruct s as [a b c d]. intros (Ha & Hb & Hc & Hd) r s'.
  cbn [st0 st1 st2 st3] in *.
  rewrite call128_unfold. intros E. apply some_pair_inv in E as [_ <-].
  unfold wf_state. cbn [st0 st1 st2 st3].
  assert (0 <= wrap 32 (Z.shiftl b 9) < 2 ^ 32) by (apply wrap_range; lia).
  assert (0 <= Z.lxor d b < 2 ^ 32) by (apply lxor_range; assumption).
  assert (0 <= Z.lxor c a < 2 ^ 32) by (apply lxor_range; assumption).
  split; [|split; [|split]]; try (apply lxor_range; assumption).
  apply (rot_range 32 (Z.lxor d b) 11); [assumption | lia].
Qed.

(** X4. Every value [operator()] returns lies between [min()] and [max()]
    of its engine, and a state of 64-bit (resp. 32-bit) words advances to a
    state of 64-bit (resp. 32-bit) words. *)
Theorem call_within_min_max (s s' : state4) :
  wf_state 64 s -> wf_state 32 s' ->
  (exists r t, Xoshiro256PP.call s = Some (r, t) /\
               Xoshiro256PP.min <= r <= Xoshiro256PP.max /\ wf_state 64 t) /\
  (exists r t, Xoshiro128PP.call s' = Some (r, t) /\
               Xoshiro128PP.min <= r <= Xoshiro128PP.max /\ wf_state 32 t).
Proof.
  intros H H'. split.
  - destruct (call256_total s) as (r & t & E). exists r, t.
    split; [exact E|]. split; [|exact (wf_transition256 s H r t E)].
    destruct s as [a b c d]. rewrite call256_unfold in E.
    apply some_pair_inv in E as [<- _].
    pose proof (wrap_range 64 (Z.lor (wrap 64 (Z.shiftl (wrap 64 (a + d)) 23))
                                 (Z.shiftr (wrap 64 (a + d)) (64 - 23)) + a)).
    unfold Xoshiro256PP.min, Xoshiro256PP.max. lia.
  - destruct (call128_total s') as (r & t & E). exists r, t.
    split; [exact E|]. split; [|exact (wf_transition128 s' H' r t E)].
    destruct s' as [a b c d]. rewrite call128_unfold in E.
    apply some_pair_inv in E as [<- _].
    pose proof (wrap_range 32 (Z.lor (wrap 32 (Z.shiftl (wrap 32 (a + d)) 7))
                                 (Z.shiftr (wrap 32 (a + d)) (32 - 7)) + a)).
    unfold Xoshiro128PP.min, Xoshiro128PP.max. lia.
Qed.

Lemma call_within_min_max_witness :
  (wf_state 64 Xoshiro256PP.default_state /\
   wf_state 32 Xoshiro128PP.default_state) /\
  ((exists r t, Xoshiro256PP.call Xoshiro256PP.default_state = Some (r, t) /\
                Xoshiro256PP.min <= r <= Xoshiro256PP.max /\ wf_state 64 t) /\
   (exists r t, Xoshiro128PP.call Xoshiro128PP.default_state = Some (r, t) /\
                Xoshiro128PP.min <= r <= Xoshiro128PP.max /\ wf_state 32 t)).
Proof.
  split; [split; [exact wf_default256 | exact wf_default128]|].
  exact (call_within_min_max _ _ wf_default256 wf_default128).
Defined.

Lemma transition128_inj (a b : state4) :
  wf_state 32 a -> wf_state 32 b ->
  forall ra rb t,
    Xoshiro128PP.call a = Some (ra, t) ->
    Xoshiro128PP.call b = Some (rb, t) ->
    a = b.
Proof.
  destruct a as [a0 a1 a2 a3], b as [b0 b1 b2 b3].
  intros (A0 & A1 & A2 & A3) (B0 & B1 & B2 & B3) ra rb t.
  cbn [st0 st1 st2 st3] in *.
  rewrite !call128_unfold. intros Ea Eb.
  apply some_pair_inv in Ea as [_ Ta]. apply some_pair_inv in Eb as [_ Tb].
  rewrite <- Tb in Ta. apply state4_eq_inv in Ta as (E0 & E1 & E2 & E3).
  assert (P : Z.lxor a3 a1 = Z.lxor b3 b1).
  { apply (rot_inj 32 11); [apply lxor_range | apply lxor_range | lia | exact E3];
      assumption. }
  assert (H0 : a0 = b0).
  { rewrite P in E0. apply lxor_cancel_r in E0. exact E0. }
  assert (H1 : a1 = b1).
  { apply (xorshift_inj 32 9); try lia.
    assert (X : Z.lxor (Z.lxor a1 (Z.lxor a2 a0))
                       (Z.lxor (Z.lxor a2 a0) (wrap 32 (Z.shiftl a1 9)))
                = Z.lxor (Z.lxor b1 (Z.lxor b2 b0))
                         (Z.lxor (Z.lxor b2 b0) (wrap 32 (Z.shiftl b1 9))))
      by (rewrite E1, E2; reflexivity).
    rewrite !lxor_middle in X. exact X. }
  subst b0 b1.
  apply lxor_cancel_l in E1. apply lxor_cancel_r in E1.
  apply lxor_cancel_r in P.
  congruence.
Qed.

Lemma call128_zero : Xoshiro128PP.call zero_state = Some (0, zero_state).
Proof. vm_compute. reflexivity. Qed.

Lemma transition128_fixed_point (s : state4) (r : Z) :
  Xoshiro128PP.call s = Some (r, s) -> s = zero_state.
Proof.
  destruct s as [a b c d]. rewrite call128_unfold.
  intros E. apply some_pair_inv in E as [_ E].
  apply state4_eq_inv in E as (E0 & E1 & E2 & E3).
  apply lxor_fixed in E0. apply lxor_fixed in E1.
  rewrite E0 in E3. cbn in E3. subst d.
  rewrite Z.lxor_0_l in E0. subst b.
  rewrite E1 in E2. cbn in E2. subst c.
  rewrite Z.lxor_0_l in E1. subst a.
  reflexivity.
Qed.

(** X5. The state transition of [Xoshiro128PP::operator()] is one-to-one on
    the states of 32-bit words: two states that advance to the same state
    are equal. No state but the all-zero one advances to itself, and a
    state that is not all-zero never advances to the all-zero state. *)
Theorem transition128_injective_fixes_zero (a b : state4) :
  wf_state 32 a -> wf_state 32 b ->
  (forall ra rb t, Xoshiro128PP.call a = Some (ra, t) ->
                   Xoshiro128PP.call b = Some (rb, t) -> a = b) /\
  (forall r, Xoshiro128PP.call a = Some (r, a) -> a = zero_state) /\
  (forall r, a <> zero_state -> Xoshiro128PP.call a <> Some (r, zero_state)).
Proof.
  intros Ha Hb. split; [|split].
  - exact (transition128_inj a b Ha Hb).
  - intros r. apply transition128_fixed_point.
  - intros r Hne E. apply Hne.
    apply (transition128_inj a zero_state Ha (wf_zero 32 ltac:(lia)) r 0 zero_state E).
    exact call128_zero.
Qed.

Lemma transition128_injective_fixes_zero_witness :
  (wf_state 32 Xoshiro128PP.default_state /\ wf_state 32 zero_state) /\
  ((forall ra rb t, Xoshiro128PP.call Xoshiro128PP.default_state = Some (ra, t) ->
                    Xoshiro128PP.call zero_state = Some (rb, t) ->
                    Xoshiro128PP.default_state = zero_state) /\
   (forall r, Xoshiro128PP.call Xoshiro128PP.default_state
              = Some (r, Xoshiro128PP.default_state) ->
              Xoshiro128PP.default_state = zero_state) /\
   (forall r, Xoshiro128PP.default_state <> zero_state ->
              Xoshiro128PP.call Xoshiro128PP.default_state <> Some (r, zero_state))).
Proof.
  assert (Hz : wf_state 32 zero_state) by (apply wf_zero; lia).
  split; [split; [exact wf_default128 | exact Hz]|].
  exact (transition128_injective_fixes_zero _ _ wf_default128 Hz).
Defined.

(** ** The all-zero state *)

Lemma outputs_zero (call : M state4 Z) (n : nat) :
  call zero_state = Some (0, zero_state) ->
  outputs call n zero_state = Some (repeat 0 n, zero_state).
Proof.
  intros H. induction n as [|n IH]; [reflexivity|].
  cbn [outputs repeat]. unfold bind at 1. rewrite H.
  unfold bind at 1. rewrite IH. reflexivity.
Qed.

(** X6. An engine in the all-zero state is stuck: however many values are
    drawn, every one of them is 0 and the state stays all-zero, for both
    engines. *)
Theorem zero_state_is_absorbing (n : nat) :
  outputs Xoshiro256PP.call n zero_state = Some (repeat 0 n, zero_state) /\
  outputs Xoshiro128PP.call n zero_state = Some (repeat 0 n, zero_state).
Proof.
  split.
  - apply outputs_zero. exact call256_zero.
  - apply outputs_zero. exact call128_zero.
Qed.

(** ** discard as repeated calls *)

Lemma bind_some {S A B : Type} (m : M S A) (k : A -> M S B) (s s' : S) (a : A) :
  m s = Some (a, s') -> bind m k s = k a s'.
Proof. intros E. unfold bind. rewrite E. reflexivity. Qed.

Lemma bind_none {S A B : Type} (m : M S A) (k : A -> M S B) (s : S) :
  m s = None -> bind m k s = None.
Proof. intros E. unfold bind. rewrite E. reflexivity. Qed.

Lemma bind_assoc {S A B C : Type} (m : M S A) (k : A -> M S B) (h : B -> M S C) (s : S) :
  bind (bind m k) h s = bind m (fun a => bind (k a) h) s.
Proof. unfold bind. destruct (m s) as [[a s']|]; reflexivity. Qed.

Lemma bind_ret_l {S A B : Type} (a : A) (k : A -> M S B) (s : S) :
  bind (ret a) k s = k a s.
Proof. reflexivity. Qed.

Section DiscardMore.

Variable call : M state4 Z.

(** The loop of [discard] with [n] iterations left is [n] calls whose
    results are dropped. *)
Lemma for_ull_call_times (n : nat) :
  forall fuel ix z last s,
    0 <= ix -> ix + Z.of_nat n = z -> z < 2 ^ 64 -> (n < fuel)%nat ->
    for_ull fuel ix z (call ;; ret tt) s
    = (call_times call n last ;; ret tt) s.
Proof.
  induction n as [|n IH]; intros fuel ix z last s Hix Hz Hmax Hfuel.
  - destruct fuel as [|fuel]; [lia|].
    cbn [for_ull call_times].
    replace (ix <? z) with false by (symmetry; apply Z.ltb_ge; lia).
    reflexivity.
  - destruct fuel as [|fuel]; [lia|].
    cbn [for_ull call_times].
    replace (ix <? z) with true by (symmetry; apply Z.ltb_lt; lia).
    rewrite wrap_small by lia.
    rewrite !bind_assoc.
    destruct (call s) as [[r s']|] eqn:E.
    + rewrite !(bind_some call _ s s' r E). rewrite bind_ret_l.
      apply (IH fuel (ix + 1) z r s'); lia.
    + rewrite !(bind_none call _ s E). reflexivity.
Qed.

Lemma call_times_last_irrelevant (n : nat) :
  forall last last' s,
    (call_times call n last ;; ret tt) s = (call_times call n last' ;; ret tt) s.
Proof.
  destruct n as [|n]; intros last last' s; [reflexivity|].
  cbn [call_times]. rewrite !bind_assoc. reflexivity.
Qed.

Lemma call_times_app (m n : nat) :
  forall last s,
    (call_times call (m + n) last ;; ret tt) s
    = ((call_times call m last ;; ret tt) ;; (call_times call n last ;; ret tt)) s.
Proof.
  induction m as [|m IH]; intros last s.
  - reflexivity.
  - cbn [Nat.add call_times]. rewrite !bind_assoc.
    destruct (call s) as [[r s']|] eqn:E.
    + rewrite !(bind_some call _ s s' r E).
      rewrite IH, !bind_assoc.
      destruct (call_times call m r s') as [[q s'']|] eqn:E'.
      * rewrite !(bind_some (call_times call m r) _ s' s'' q E').
        rewrite !bind_ret_l. apply call_times_last_irrelevant.
      * rewrite !(bind_none (call_times call m r) _ s' E'). reflexivity.
    + rewrite !(bind_none call _ s E). reflexivity.
Qed.

Variable P : state4 -> Prop.
Hypothesis call_keeps : forall s, P s -> exists r s', call s = Some (r, s') /\ P s'.

Lemma call_times_keeps (n : nat) :
  forall last s, P s ->
    exists s', (call_times call n last ;; ret tt) s = Some (tt, s') /\ P s'.
Proof.
  induction n as [|n IH]; intros last s Hs.
  - exists s. split; [reflexivity | exact Hs].
  - cbn [call_times]. rewrite bind_assoc.
    destruct (call_keeps s Hs) as (r & s' & E & Hs').
    rewrite (bind_some call _ s s' r E).
    apply (IH r s' Hs').
Qed.

End DiscardMore.

Lemma discard256_as_calls (z : Z) (s : state4) :
  0 <= z < 2 ^ 64 ->
  Xoshiro256PP.discard z s
  = (call_times Xoshiro256PP.call (Z.to_nat z) 0 ;; ret tt) s.
Proof.
  intros Hz. unfold Xoshiro256PP.discard. apply for_ull_call_times; lia.
Qed.

Lemma discard128_as_calls (z : Z) (s : state4) :
  0 <= z < 2 ^ 64 ->
  Xoshiro128PP.discard z s
  = (call_times Xoshiro128PP.call (Z.to_nat z) 0 ;; ret tt) s.
Proof.
  intros Hz. unfold Xoshiro128PP.discard. apply for_ull_call_times; lia.
Qed.

Lemma bind_ext_l {S A B : Type} (m m' : M S A) (k k' : A -> M S B) (s : S) :
  m s = m' s -> (forall a t, k a t = k' a t) -> bind m k s = bind m' k' s.
Proof.
  intros Em Ek. unfold bind. rewrite Em.
  destruct (m' s) as [[a t]|]; [apply Ek | reflexivity].
Qed.

(** X7. Discards add up: [discard(m)] followed by [discard(n)] leaves the
    engine where [discard(m + n)] leaves it, as long as [m + n] is a count
    an [unsigned long long] holds. This holds for both engines. *)
Theorem discard_adds_up (m n : Z) (s : state4) :
  0 <= m -> 0 <= n -> m + n < 2 ^ 64 ->
  (Xoshiro256PP.discard m ;; Xoshiro256PP.discard n) s
  = Xoshiro256PP.discard (m + n) s /\
  (Xoshiro128PP.discard m ;; Xoshiro128PP.discard n) s
  = Xoshiro128PP.discard (m + n) s.
Proof.
  intros Hm Hn Hmax. split.
  - rewrite (discard256_as_calls (m + n)) by lia.
    rewrite Z2Nat.inj_add by lia. rewrite call_times_app.
    apply bind_ext_l.
    + apply discard256_as_calls. lia.
    + intros _ t. apply discard256_as_calls. lia.
  - rewrite (discard128_as_calls (m + n)) by lia.
    rewrite Z2Nat.inj_add by lia. rewrite call_times_app.
    apply bind_ext_l.
    + apply discard128_as_calls. lia.
    + intros _ t. apply discard128_as_calls. lia.
Qed.

Lemma discard_adds_up_witness :
  (0 <= 2 /\ 0 <= 3 /\ 2 + 3 < 2 ^ 64) /\
  ((Xoshiro256PP.discard 2 ;; Xoshiro256PP.discard 3) Xoshiro256PP.default_state
   = Xoshiro256PP.discard (2 + 3) Xoshiro256PP.default_state /\
   (Xoshiro128PP.discard 2 ;; Xoshiro128PP.discard 3) Xoshiro256PP.default_state
   = Xoshiro128PP.discard (2 + 3) Xoshiro256PP.default_state).
Proof.
  split; [lia|].
  apply (discard_adds_up 2 3 Xoshiro256PP.default_state); lia.
Defined.

Lemma call256_keeps_seeded (s : state4) :
  wf_state 64 s /\ s <> zero_state ->
  exists r s', Xoshiro256PP.call s = Some (r, s') /\
               (wf_state 64 s' /\ s' <> zero_state).
Proof.
  intros [Hwf Hne]. destruct (call256_total s) as (r & s' & E).
  exists r, s'. split; [exact E|]. split.
  - exact (wf_transition256 s Hwf r s' E).
  - intros ->. apply Hne.
    exact (transition256_inj s zero_state Hwf (wf_zero 64 ltac:(lia))
             r 0 zero_state E call256_zero).
Qed.

Lemma call128_keeps_seeded (s : state4) :
  wf_state 32 s /\ s <> zero_state ->
  exists r s', Xoshiro128PP.call s = Some (r, s') /\
               (wf_state 32 s' /\ s' <> zero_state).
Proof.
  intros [Hwf Hne]. destruct (call128_total s) as (r & s' & E).
  exists r, s'. split; [exact E|]. split.
  - exact (wf_transition128 s Hwf r s' E).
  - intros ->. apply Hne.
    exact (transition128_inj s zero_state Hwf (wf_zero 32 ltac:(lia))
             r 0 zero_state E call128_zero).
Qed.

(** X8. [discard] keeps an engine usable: from a state of 64-bit (resp.
    32-bit) words that is not all-zero, [discard(z)] returns for every
    count [z] and leaves a state of 64-bit (resp. 32-bit) words that is not
    all-zero. *)
Theorem discard_keeps_seeded (z : Z) (s s' : state4) :
  0 <= z < 2 ^ 64 ->
  wf_state 64 s -> s <> zero_state ->
  wf_state 32 s' -> s' <> zero_state ->
  (exists t, Xoshiro256PP.discard z s = Some (tt, t) /\
             wf_state 64 t /\ t <> zero_state) /\
  (exists t, Xoshiro128PP.discard z s' = Some (tt, t) /\
             wf_state 32 t /\ t <> zero_state).
Proof.
  intros Hz Hs Hn Hs' Hn'. split.
  - rewrite discard256_as_calls by assumption.
    apply (call_times_keeps Xoshiro256PP.call
             (fun s => wf_state 64 s /\ s <> zero_state) call256_keeps_seeded).
    split; assumption.
  - rewrite discard128_as_calls by assumption.
    apply (call_times_keeps Xoshiro128PP.call
             (fun s => wf_state 32 s /\ s <> zero_state) call128_keeps_seeded).
    split; assumption.
Qed.

Lemma discard_keeps_seeded_witness :
  (0 <= 4 < 2 ^ 64 /\
   wf_state 64 Xoshiro256PP.default_state /\
   Xoshiro256PP.default_state <> zero_state /\
   wf_state 32 Xoshiro128PP.default_state /\
   Xoshiro128PP.default_state <> zero_state) /\
  ((exists t, Xoshiro256PP.discard 4 Xoshiro256PP.default_state = Some (tt, t) /\
              wf_state 64 t /\ t <> zero_state) /\
   (exists t, Xoshiro128PP.discard 4 Xoshiro128PP.default_state = Some (tt, t) /\
              wf_state 32 t /\ t <> zero_state)).
Proof.
  assert (H4 : 0 <= 4 < 2 ^ 64) by lia.
  assert (N256 : Xoshiro256PP.default_state <> zero_state) by discriminate.
  assert (N128 : Xoshiro128PP.default_state <> zero_state) by discriminate.
  split; [exact (conj H4 (conj wf_default256 (conj N256 (conj wf_default128 N128))))|].
  exact (discard_keeps_seeded 4 _ _ H4 wf_default256 N256 wf_default128 N128).
Defined.

(** ** splitmix64 is one-to-one *)

(** [x ^ (x >> k)] determines [x]: bit by bit from the top. *)
Lemma xorshiftr_inj (w k x y : Z) :
  0 <= x < 2 ^ w -> 0 <= y < 2 ^ w -> 0 < k ->
  Z.lxor x (Z.shiftr x k) = Z.lxor y (Z.shiftr y k) ->
  x = y.
Proof.
  intros Hx Hy Hk E.
  assert (G : forall n : nat, forall i, 0 <= i -> w - Z.of_nat n <= i ->
                              Z.testbit x i = Z.testbit y i).
  { induction n as [|n IH]; intros i Hi Hn.
    - rewrite (testbit_high w x i), (testbit_high w y i) by lia. reflexivity.
    - destruct (Z.le_gt_cases (w - Z.of_nat n) i) as [Hle | Hgt];
        [apply IH; assumption|].
      assert (Ei := f_equal (fun v => Z.testbit v i) E). cbn beta in Ei.
      rewrite !Z.lxor_spec, !Z.shiftr_spec in Ei by assumption.
      rewrite (IH (i + k)) in Ei by lia.
      destruct (Z.testbit x i), (Z.testbit y i), (Z.testbit y (i + k));
        cbn in Ei; congruence. }
  apply Z.bits_inj'. intros i Hi.
  apply (G (Z.to_nat w)); lia.
Qed.

(** Multiplication modulo [2^64] by a constant that has an inverse is
    one-to-one. *)
Lemma mul_wrap_inj (c c' a b : Z) :
  wrap 64 (c * c') = 1 ->
  0 <= a < 2 ^ 64 -> 0 <= b < 2 ^ 64 ->
  wrap 64 (a * c) = wrap 64 (b * c) -> a = b.
Proof.
  intros Hc Ha Hb E.
  assert (R : forall v, 0 <= v < 2 ^ 64 -> wrap 64 (wrap 64 (v * c) * c') = v).
  { intros v Hv. unfold wrap in *.
    rewrite Z.mul_mod_idemp_l by lia.
    rewrite <- Z.mul_assoc, <- Z.mul_mod_idemp_r, Hc, Z.mul_1_r by lia.
    apply Z.mod_small. assumption. }
  rewrite <- (R a Ha), <- (R b Hb), E. reflexivity.
Qed.

Lemma add_wrap_inj (c a b : Z) :
  0 <= a < 2 ^ 64 -> 0 <= b < 2 ^ 64 ->
  wrap 64 (a + c) = wrap 64 (b + c) -> a = b.
Proof.
  intros Ha Hb E. unfold wrap in E.
  assert (Ea : a = (a + c - c) mod 2 ^ 64) by
    (replace (a + c - c) with a by lia; symmetry; apply Z.mod_small; assumption).
  assert (Eb : b = (b + c - c) mod 2 ^ 64) by
    (replace (b + c - c) with b by lia; symmetry; apply Z.mod_small; assumption).
  rewrite Ea, Eb.
  rewrite <- (Zminus_mod_idemp_l (a + c)), <- (Zminus_mod_idemp_l (b + c)), E.
  reflexivity.
Qed.

Lemma some_inj {A : Type} (a b : A) : Some a = Some b -> a = b.
Proof. intros E. injection E. auto. Qed.

Lemma splitmix64_inj (s s' v : Z) :
  0 <= s < 2 ^ 64 -> 0 <= s' < 2 ^ 64 ->
  splitmix64 s = Some v -> splitmix64 s' = Some v -> s = s'.
Proof.
  intros Hs Hs'. unfold splitmix64.
  rewrite !shr_defined by lia. cbn [obind].
  intros E E'. rewrite <- E' in E. clear E'.
  apply some_inj in E.
  apply (add_wrap_inj 0x9e3779b97f4a7c15); try assumption.
  apply (xorshiftr_inj 64 30); try (apply wrap_range; lia); try lia.
  apply (mul_wrap_inj 0xbf58476d1ce4e5b9 0x96de1b173f119089);
    try reflexivity;
    try (apply lxor_range; [|apply shiftr_range]; try apply wrap_range; lia).
  apply (xorshiftr_inj 64 27); try (apply wrap_range; lia); try lia.
  apply (mul_wrap_inj 0x94d049bb133111eb 0x319642b2d24d8ec3);
    try reflexivity;
    try (apply lxor_range; [|apply shiftr_range]; try apply wrap_range; lia).
  apply (xorshiftr_inj 64 31); try (apply wrap_range; lia); lia.
Qed.

(** X9. [splitmix64] has a result for every argument, the result is a
    64-bit word, and on 64-bit arguments it is one-to-one: two seeds with
    the same image are the same seed. *)
Theorem splitmix64_one_to_one (s s' : Z) :
  0 <= s < 2 ^ 64 -> 0 <= s' < 2 ^ 64 ->
  (exists v, splitmix64 s = Some v /\ 0 <= v < 2 ^ 64) /\
  (splitmix64 s = splitmix64 s' -> s = s').
Proof.
  intros Hs Hs'. split; [apply splitmix64_defined|].
  destruct (splitmix64_defined s') as (v & E' & _).
  rewrite E'. intros E. exact (splitmix64_inj s s' v Hs Hs' E E').
Qed.

Lemma splitmix64_one_to_one_witness :
  (0 <= 1 < 2 ^ 64 /\ 0 <= 2 < 2 ^ 64) /\
  ((exists v, splitmix64 1 = Some v /\ 0 <= v < 2 ^ 64) /\
   (splitmix64 1 = splitmix64 2 -> 1 = 2)).
Proof.
  split; [lia|].
  apply (splitmix64_one_to_one 1 2); lia.
Defined.

(** ** Seeding from a scalar *)

Lemma seed256_value (s x x0 x1 x2 x3 : Z) (st : state4) :
  splitmix64 s = Some x -> splitmix64 x = Some x0 ->
  splitmix64 x0 = Some x1 -> splitmix64 x1 = Some x2 ->
  splitmix64 x2 = Some x3 ->
  Xoshiro256PP.seed s st = Some (tt, State4 x0 x1 x2 x3).
Proof.
  intros Ex E0 E1 E2 E3.
  unfold Xoshiro256PP.seed, bind, lift, load, store. cbn [st0 st1 st2 st3].
  rewrite Ex, E0. cbn [st0 st1 st2 st3]. rewrite E1. cbn [st0 st1 st2 st3].
  rewrite E2. cbn [st0 st1 st2 st3]. rewrite E3. reflexivity.
Qed.

Lemma seed256_chain (s : Z) :
  exists x x0 x1 x2 x3,
    splitmix64 s = Some x /\ splitmix64 x = Some x0 /\
    splitmix64 x0 = Some x1 /\ splitmix64 x1 = Some x2 /\
    splitmix64 x2 = Some x3 /\ 0 <= x < 2 ^ 64 /\
    forall st, Xoshiro256PP.seed s st = Some (tt, State4 x0 x1 x2 x3).
Proof.
  destruct (splitmix64_defined s) as (x & Ex & Rx).
  destruct (splitmix64_defined x) as (x0 & E0 & R0).
  destruct (splitmix64_defined x0) as (x1 & E1 & R1).
  destruct (splitmix64_defined x1) as (x2 & E2 & R2).
  destruct (splitmix64_defined x2) as (x3 & E3 & R3).
  exists x, x0, x1, x2, x3. repeat (split; [assumption|]).
  intros st. apply seed256_value with x; assumption.
Qed.

(** X10. Seeding from a scalar resets the engine: the state after
    [seed(s)] does not depend on the state before, for both engines, and the
    constructor from a scalar yields that same state. Two engines seeded
    with the same scalar therefore produce the same outputs, whatever was
    drawn from them before. *)
Theorem seed_forgets_previous_state (e : byte_order) (s : Z) (st st' : state4) :
  Xoshiro256PP.seed s st = Xoshiro256PP.seed s st' /\
  Xoshiro128PP.seed e s st = Xoshiro128PP.seed e s st' /\
  (exists t, Xoshiro256PP.construct s = Some t /\
             Xoshiro256PP.seed s st = Some (tt, t)) /\
  (exists t, Xoshiro128PP.construct e s = Some t /\
             Xoshiro128PP.seed e s st = Some (tt, t)).
Proof.
  destruct (seed256_chain s) as (x & x0 & x1 & x2 & x3 & _ & _ & _ & _ & _ & _ & H).
  destruct (splitmix64_defined s) as (t1 & E1 & R1).
  destruct (splitmix64_defined t1) as (t2 & E2 & R2).
  destruct (splitmix64_defined (extract_32bits_from64_left e t1)) as (y0 & F0 & _).
  destruct (splitmix64_defined (extract_32bits_from64_right e t1)) as (y1 & F1 & _).
  destruct (splitmix64_defined (extract_32bits_from64_left e t2)) as (y2 & F2 & _).
  destruct (splitmix64_defined (extract_32bits_from64_right e t2)) as (y3 & F3 & _).
  assert (H' : forall u, Xoshiro128PP.seed e s u
                         = Some (tt, State4 (wrap 32 y0) (wrap 32 y1)
                                            (wrap 32 y2) (wrap 32 y3))).
  { intros u. unfold Xoshiro128PP.seed, bind, lift, store.
    rewrite E1, E2, F0, F1, F2, F3. reflexivity. }
  split; [|split; [|split]].
  - rewrite (H st), (H st'). reflexivity.
  - rewrite (H' st), (H' st'). reflexivity.
  - exists (State4 x0 x1 x2 x3). unfold Xoshiro256PP.construct.
    rewrite !H. split; reflexivity.
  - eexists. unfold Xoshiro128PP.construct. rewrite !H'. split; reflexivity.
Qed.

(** X11. Different 64-bit scalars seed Xoshiro256PP differently: if
    [seed(s)] and [seed(s')] leave the same state, then [s = s']. *)
Theorem seed256_one_to_one (s s' : Z) (st st' t : state4) :
  0 <= s < 2 ^ 64 -> 0 <= s' < 2 ^ 64 ->
  Xoshiro256PP.seed s st = Some (tt, t) ->
  Xoshiro256PP.seed s' st' = Some (tt, t) ->
  s = s'.
Proof.
  intros Hs Hs'.
  destruct (seed256_chain s) as (x & x0 & x1 & x2 & x3 & Ex & E0 & _ & _ & _ & Rx & H).
  destruct (seed256_chain s') as (y & y0 & y1 & y2 & y3 & Ey & F0 & _ & _ & _ & Ry & H').
  rewrite H, H'. intros E E'. rewrite <- E' in E. clear E'.
  apply some_pair_inv in E as [_ E].
  apply state4_eq_inv in E as (E & _). subst y0.
  assert (x = y) by exact (splitmix64_inj x y x0 Rx Ry E0 F0). subst y.
  exact (splitmix64_inj s s' x Hs Hs' Ex Ey).
Qed.

Lemma seed256_one_to_one_witness :
  (0 <= 42 < 2 ^ 64 /\ 0 <= 42 < 2 ^ 64 /\
   Xoshiro256PP.seed 42 zero_state
   = Some (tt, State4 6332618229526065668 7138415436909018950
                      13934464819154148243 14682575489612188334) /\
   Xoshiro256PP.seed 42 Xoshiro256PP.default_state
   = Some (tt, State4 6332618229526065668 7138415436909018950
                      13934464819154148243 14682575489612188334)) /\
  42 = 42.
Proof.
  assert (R : 0 <= 42 < 2 ^ 64) by lia.
  assert (E1 : Xoshiro256PP.seed 42 zero_state
               = Some (tt, State4 6332618229526065668 7138415436909018950
                                  13934464819154148243 14682575489612188334))
    by (vm_compute; reflexivity).
  assert (E2 : Xoshiro256PP.seed 42 Xoshiro256PP.default_state
               = Some (tt, State4 6332618229526065668 7138415436909018950
                                  13934464819154148243 14682575489612188334))
    by (vm_compute; reflexivity).
  split; [exact (conj R (conj R (conj E1 E2)))|].
  exact (seed256_one_to_one 42 42 _ _ _ R R E1 E2).
Defined.

(** ** The comparison operators on all states *)

Lemma state4_eq_dec (a b : state4) : {a = b} + {a <> b}.
Proof. decide equality; apply Z.eq_dec. Qed.

(** X12. On states of 64-bit (resp. 32-bit) words and on a host of either
    byte order, [operator==] answers [true] exactly when the two states
    differ, and the pre-C++20 [operator!=] answers [true] exactly when they
    are the same. *)
Theorem comparison_operators (e : byte_order) (a b a' b' : state4) :
  wf_state 64 a -> wf_state 64 b -> wf_state 32 a' -> wf_state 32 b' ->
  (Xoshiro256PP.op_eq e a b = true <-> a <> b) /\
  (Xoshiro256PP.op_ne e a b = true <-> a = b) /\
  (Xoshiro128PP.op_eq e a' b' = true <-> a' <> b') /\
  (Xoshiro128PP.op_ne e a' b' = true <-> a' = b').
Proof.
  intros Ha Hb Ha' Hb'.
  pose proof (op_eq256_true_iff_differ e a b Ha Hb) as H.
  pose proof (op_eq128_true_iff_differ e a' b' Ha' Hb') as H'.
  change (Xoshiro256PP.op_ne e a b) with (negb (Xoshiro256PP.op_eq e a b)).
  change (Xoshiro128PP.op_ne e a' b') with (negb (Xoshiro128PP.op_eq e a' b')).
  split; [exact H|]. split; [|split; [exact H'|]].
  - destruct (Xoshiro256PP.op_eq e a b); cbn [negb]; split; intros E.
    + discriminate.
    + exfalso. apply (proj1 H); [reflexivity | exact E].
    + destruct (state4_eq_dec a b) as [Q | N]; [exact Q|].
      apply H in N. discriminate.
    + reflexivity.
  - destruct (Xoshiro128PP.op_eq e a' b'); cbn [negb]; split; intros E.
    + discriminate.
    + exfalso. apply (proj1 H'); [reflexivity | exact E].
    + destruct (state4_eq_dec a' b') as [Q | N]; [exact Q|].
      apply H' in N. discriminate.
    + reflexivity.
Qed.

Lemma comparison_operators_witness :
  (wf_state 64 Xoshiro256PP.default_state /\ wf_state 64 zero_state /\
   wf_state 32 Xoshiro128PP.default_state /\ wf_state 32 zero_state) /\
  ((Xoshiro256PP.op_eq LittleEndian Xoshiro256PP.default_state zero_state = true
    <-> Xoshiro256PP.default_state <> zero_state) /\
   (Xoshiro256PP.op_ne LittleEndian Xoshiro256PP.default_state zero_state = true
    <-> Xoshiro256PP.default_state = zero_state) /\
   (Xoshiro128PP.op_eq LittleEndian Xoshiro128PP.default_state zero_state = true
    <-> Xoshiro128PP.default_state <> zero_state) /\
   (Xoshiro128PP.op_ne LittleEndian Xoshiro128PP.default_state zero_state = true
    <-> Xoshiro128PP.default_state = zero_state)).
Proof.
  assert (Z64 : wf_state 64 zero_state) by (apply wf_zero; lia).
  assert (Z32 : wf_state 32 zero_state) by (apply wf_zero; lia).
  split; [exact (conj wf_default256 (conj Z64 (conj wf_default128 Z32)))|].
  exact (comparison_operators LittleEndian _ _ _ _ wf_default256 Z64 wf_default128 Z32).
Defined.

(** ** What the stream operators do on short and failed input *)

Lemma ist_read_good_inv (n : nat) (old : list byte) (ist : istream) :
  good (snd (ist_read n old ist)) = true ->
  good ist = true /\
  (n + length (pending (snd (ist_read n old ist))) = length (pending ist))%nat.
Proof.
  unfold ist_read. destruct (good ist) eqn:G; cbn [snd good pending].
  - intros H. apply Nat.leb_le in H. split; [reflexivity|].
    rewrite length_skipn. lia.
  - rewrite G. discriminate.
Qed.

Lemma ist_get_good_inv (ist : istream) :
  good (ist_get ist) = true ->
  good ist = true /\
  (1 + length (pending (ist_get ist)) = length (pending ist))%nat.
Proof.
  unfold ist_get. destruct (good ist) eqn:G.
  - destruct (pending ist) as [|c rest]; cbn [good pending length].
    + discriminate.
    + intros _. split; reflexivity.
  - rewrite G. discriminate.
Qed.

Lemma read_state_stream (e : byte_order) (n : nat) (s : state4) (ist : istream) :
  snd (read_state e n s ist)
  = snd (ist_read n (to_bytes e n (st3 s))
      (ist_get (snd (ist_read n (to_bytes e n (st2 s))
        (ist_get (snd (ist_read n (to_bytes e n (st1 s))
          (ist_get (snd (ist_read n (to_bytes e n (st0 s)) ist)))))))))).
Proof.
  unfold read_state, read_word.
  destruct (ist_read n (to_bytes e n (st0 s)) ist) as [b0 i0]. cbn [snd].
  destruct (ist_read n (to_bytes e n (st1 s)) (ist_get i0)) as [b1 i1]. cbn [snd].
  destruct (ist_read n (to_bytes e n (st2 s)) (ist_get i1)) as [b2 i2]. cbn [snd].
  destruct (ist_read n (to_bytes e n (st3 s)) (ist_get i2)) as [b3 i3].
  reflexivity.
Qed.

Lemma split_block {A : Type} (n : nat) (p : list A) :
  (n <= length p)%nat -> exists b r, p = b ++ r /\ length b = n.
Proof.
  intros H. exists (firstn n p), (skipn n p). split.
  - symmetry. apply firstn_skipn.
  - apply firstn_length_le. assumption.
Qed.

Lemma split_sep {A : Type} (p : list A) :
  (1 <= length p)%nat -> exists c r, p = c :: r.
Proof. destruct p as [|c r]; cbn; [lia | eauto]. Qed.

(** With a whole snapshot pending, [operator>>] leaves the stream good. *)
Lemma read_state_enough (e : byte_order) (n : nat) (s : state4) (p : list byte) :
  (4 * n + 3 <= length p)%nat ->
  good (snd (read_state e n s (IStream p true))) = true.
Proof.
  intros H.
  destruct (split_block n p ltac:(lia)) as (b0 & r0 & -> & L0).
  rewrite length_app in H.
  destruct (split_sep r0 ltac:(lia)) as (c1 & r1 & ->). cbn [length] in H.
  destruct (split_block n r1 ltac:(lia)) as (b1 & r2 & -> & L1).
  rewrite length_app in H.
  destruct (split_sep r2 ltac:(lia)) as (c2 & r3 & ->). cbn [length] in H.
  destruct (split_block n r3 ltac:(lia)) as (b2 & r4 & -> & L2).
  rewrite length_app in H.
  destruct (split_sep r4 ltac:(lia)) as (c3 & r5 & ->). cbn [length] in H.
  destruct (split_block n r5 ltac:(lia)) as (b3 & r6 & -> & L3).
  rewrite read_state_stream.
  rewrite ist_read_block by (try apply to_bytes_length; assumption).
  cbn [snd]. rewrite ist_get_any.
  rewrite ist_read_block by (try apply to_bytes_length; assumption).
  cbn [snd]. rewrite ist_get_any.
  rewrite ist_read_block by (try apply to_bytes_length; assumption).
  cbn [snd]. rewrite ist_get_any.
  rewrite ist_read_block by (try apply to_bytes_length; assumption).
  reflexivity.
Qed.

Lemma read_state_good_inv (e : byte_order) (n : nat) (s : state4) (ist : istream) :
  good (snd (read_state e n s ist)) = true ->
  good ist = true /\ (4 * n + 3 <= length (pending ist))%nat.
Proof.
  rewrite read_state_stream. intros H.
  apply ist_read_good_inv in H as [H L3].
  apply ist_get_good_inv in H as [H G3].
  apply ist_read_good_inv in H as [H L2].
  apply ist_get_good_inv in H as [H G2].
  apply ist_read_good_inv in H as [H L1].
  apply ist_get_good_inv in H as [H G1].
  apply ist_read_good_inv in H as [H L0].
  split; [exact H | lia].
Qed.

(** X13. [operator>>] leaves the stream good exactly when the stream was
    good and a whole snapshot was pending: 35 characters for Xoshiro256PP,
    19 for Xoshiro128PP. On anything shorter the stream fails. *)
Theorem read_needs_whole_snapshot (e : byte_order) (s : state4) (ist : istream) :
  good (snd (Xoshiro256PP.read e ist s))
  = good ist && (35 <=? length (pending ist))%nat /\
  good (snd (Xoshiro128PP.read e ist s))
  = good ist && (19 <=? length (pending ist))%nat.
Proof.
  unfold Xoshiro256PP.read, Xoshiro128PP.read. split.
  - destruct (good (snd (read_state e 8 s ist))) eqn:G.
    + apply read_state_good_inv in G as [G L]. rewrite G. cbn [andb].
      symmetry. apply Nat.leb_le. exact L.
    + destruct ist as [p g]. cbn [good pending].
      destruct g; [|reflexivity]. cbn [andb].
      destruct (Nat.leb_spec 35 (length p)) as [L | L]; [|reflexivity].
      rewrite (read_state_enough e 8 s p L) in G. discriminate.
  - destruct (good (snd (read_state e 4 s ist))) eqn:G.
    + apply read_state_good_inv in G as [G L]. rewrite G. cbn [andb].
      symmetry. apply Nat.leb_le. exact L.
    + destruct ist as [p g]. cbn [good pending].
      destruct g; [|reflexivity]. cbn [andb].
      destruct (Nat.leb_spec 19 (length p)) as [L | L]; [|reflexivity].
      rewrite (read_state_enough e 4 s p L) in G. discriminate.
Qed.

Lemma read_state_bad (e : byte_order) (n : nat) (s : state4) (p : list byte) :
  wf_state (Z.of_nat n * 8) s ->
  read_state e n s (IStream p false) = (s, IStream p false).
Proof.
  destruct s as [a b c d]. intros (Ha & Hb & Hc & Hd). cbn [st0 st1 st2 st3] in *.
  unfold read_state, read_word, ist_read, ist_get. cbn [good st0 st1 st2 st3].
  rewrite !from_to_bytes_word by assumption. reflexivity.
Qed.

Lemma ist_read_empty (n : nat) (old : list byte) :
  ist_read (S n) old (IStream [] true) = (old, IStream [] false).
Proof. reflexivity. Qed.

(** X14. [operator>>] on a stream that is not good, or on a good stream
    with nothing pending, extracts nothing: the state of the engine is what
    it was and the stream is not good afterwards. *)
Theorem read_extracts_nothing (e : byte_order) (s s' : state4) (p : list byte) :
  wf_state 64 s -> wf_state 32 s' ->
  Xoshiro256PP.read e (IStream p false) s = (s, IStream p false) /\
  Xoshiro128PP.read e (IStream p false) s' = (s', IStream p false) /\
  Xoshiro256PP.read e (IStream [] true) s = (s, IStream [] false) /\
  Xoshiro128PP.read e (IStream [] true) s' = (s', IStream [] false).
Proof.
  intros H H'. unfold Xoshiro256PP.read, Xoshiro128PP.read.
  split; [|split; [|split]].
  - apply read_state_bad. exact H.
  - apply read_state_bad. exact H'.
  - unfold read_state at 1. unfold read_word at 1. rewrite ist_read_empty.
    change (ist_get (IStream [] false)) with (IStream [] false).
    unfold read_word, ist_read, ist_get. cbn [good].
    destruct s as [a b c d]. destruct H as (Ha & Hb & Hc & Hd).
    cbn [st0 st1 st2 st3] in *.
    rewrite !(from_to_bytes_word e 8) by assumption. reflexivity.
  - unfold read_state at 1. unfold read_word at 1. rewrite ist_read_empty.
    change (ist_get (IStream [] false)) with (IStream [] false).
    unfold read_word, ist_read, ist_get. cbn [good].
    destruct s' as [a b c d]. destruct H' as (Ha & Hb & Hc & Hd).
    cbn [st0 st1 st2 st3] in *.
    rewrite !(from_to_bytes_word e 4) by assumption. reflexivity.
Qed.

Lemma read_extracts_nothing_witness :
  (wf_state 64 Xoshiro256PP.default_state /\
   wf_state 32 Xoshiro128PP.default_state) /\
  (Xoshiro256PP.read BigEndian (IStream [Byte.x41] false) Xoshiro256PP.default_state
   = (Xoshiro256PP.default_state, IStream [Byte.x41] false) /\
   Xoshiro128PP.read BigEndian (IStream [Byte.x41] false) Xoshiro128PP.default_state
   = (Xoshiro128PP.default_state, IStream [Byte.x41] false) /\
   Xoshiro256PP.read BigEndian (IStream [] true) Xoshiro256PP.default_state
   = (Xoshiro256PP.default_state, IStream [] false) /\
   Xoshiro128PP.read BigEndian (IStream [] true) Xoshiro128PP.default_state
   = (Xoshiro128PP.default_state, IStream [] false)).
Proof.
  split; [exact (conj wf_default256 wf_default128)|].
  exact (read_extracts_nothing BigEndian _ _ [Byte.x41] wf_default256 wf_default128).
Defined.

(** X15. A failed [operator>>] does not restore the engine: when the input
    ends right after the first word block, word 0 of the state is replaced
    by that block, the other three words keep their values, and the stream
    is not good. *)
Theorem read_truncated_after_first_word (e : byte_order) (s s' : state4) (w w' : Z) :
  wf_state 64 s -> 0 <= w < 2 ^ 64 ->
  wf_state 32 s' -> 0 <= w' < 2 ^ 32 ->
  Xoshiro256PP.read e (IStream (to_bytes e 8 w) true) s
  = (State4 w (st1 s) (st2 s) (st3 s), IStream [] false) /\
  Xoshiro128PP.read e (IStream (to_bytes e 4 w') true) s'
  = (State4 w' (st1 s') (st2 s') (st3 s'), IStream [] false).
Proof.
  intros H Hw H' Hw'. unfold Xoshiro256PP.read, Xoshiro128PP.read. split.
  - destruct s as [a b c d]. destruct H as (Ha & Hb & Hc & Hd).
    cbn [st0 st1 st2 st3] in *.
    unfold read_state at 1. cbn [st0 st1 st2 st3].
    rewrite <- (app_nil_r (to_bytes e 8 w)).
    rewrite (read_word_block e 8) by assumption.
    change (ist_get (IStream [] true)) with (IStream [] false).
    unfold read_word, ist_read, ist_get. cbn [good].
    rewrite !(from_to_bytes_word e 8) by assumption. reflexivity.
  - destruct s' as [a b c d]. destruct H' as (Ha & Hb & Hc & Hd).
    cbn [st0 st1 st2 st3] in *.
    unfold read_state at 1. cbn [st0 st1 st2 st3].
    rewrite <- (app_nil_r (to_bytes e 4 w')).
    rewrite (read_word_block e 4) by assumption.
    change (ist_get (IStream [] true)) with (IStream [] false).
    unfold read_word, ist_read, ist_get. cbn [good].
    rewrite !(from_to_bytes_word e 4) by assumption. reflexivity.
Qed.

Lemma read_truncated_after_first_word_witness :
  (wf_state 64 Xoshiro256PP.default_state /\ 0 <= 7 < 2 ^ 64 /\
   wf_state 32 Xoshiro128PP.default_state /\ 0 <= 7 < 2 ^ 32) /\
  (Xoshiro256PP.read LittleEndian (IStream (to_bytes LittleEndian 8 7) true)
     Xoshiro256PP.default_state
   = (State4 7 (st1 Xoshiro256PP.default_state) (st2 Xoshiro256PP.default_state)
             (st3 Xoshiro256PP.default_state), IStream [] false) /\
   Xoshiro128PP.read LittleEndian (IStream (to_bytes LittleEndian 4 7) true)
     Xoshiro128PP.default_state
   = (State4 7 (st1 Xoshiro128PP.default_state) (st2 Xoshiro128PP.default_state)
             (st3 Xoshiro128PP.default_state), IStream [] false)).
Proof.
  assert (R64 : 0 <= 7 < 2 ^ 64) by lia.
  assert (R32 : 0 <= 7 < 2 ^ 32) by lia.
  split; [exact (conj wf_default256 (conj R64 (conj wf_default128 R32)))|].
  exact (read_truncated_after_first_word LittleEndian _ _ 7 7
           wf_default256 R64 wf_default128 R32).
Defined.

(** X16. [operator<<] appends 35 characters (Xoshiro256PP) or 19
    characters (Xoshiro128PP) to the stream, and it is one-to-one: two
    engines that write the same characters are in the same state. *)
Theorem write_is_one_to_one (e : byte_order) (ost : ostream) (s t s' t' : state4) :
  wf_state 64 s -> wf_state 64 t -> wf_state 32 s' -> wf_state 32 t' ->
  (length (Xoshiro256PP.write e ost s) = length ost + 35)%nat /\
  (Xoshiro256PP.write e ost s = Xoshiro256PP.write e ost t -> s = t) /\
  (length (Xoshiro128PP.write e ost s') = length ost + 19)%nat /\
  (Xoshiro128PP.write e ost s' = Xoshiro128PP.write e ost t' -> s' = t').
Proof.
  intros Hs Ht Hs' Ht'.
  unfold Xoshiro256PP.write, Xoshiro128PP.write.
  rewrite !write_state_framed.
  split; [|split; [|split]].
  - unfold Spec.framed. rewrite !length_app. cbn [length].
    rewrite !length_app. cbn [length]. rewrite !length_app. cbn [length].
    rewrite !to_bytes_length. lia.
  - intros E. apply app_inv_head in E.
    pose proof (read_state_framed e 8 zero_state s space space space [] Hs) as R1.
    pose proof (read_state_framed e 8 zero_state t space space space [] Ht) as R2.
    rewrite E, R2 in R1. congruence.
  - unfold Spec.framed. rewrite !length_app. cbn [length].
    rewrite !length_app. cbn [length]. rewrite !length_app. cbn [length].
    rewrite !to_bytes_length. lia.
  - intros E. apply app_inv_head in E.
    pose proof (read_state_framed e 4 zero_state s' space space space [] Hs') as R1.
    pose proof (read_state_framed e 4 zero_state t' space space space [] Ht') as R2.
    rewrite E, R2 in R1. congruence.
Qed.

Lemma write_is_one_to_one_witness :
  (wf_state 64 Xoshiro256PP.default_state /\ wf_state 64 zero_state /\
   wf_state 32 Xoshiro128PP.default_state /\ wf_state 32 zero_state) /\
  ((length (Xoshiro256PP.write LittleEndian [] Xoshiro256PP.default_state)
    = length (@nil byte) + 35)%nat /\
   (Xoshiro256PP.write LittleEndian [] Xoshiro256PP.default_state
    = Xoshiro256PP.write LittleEndian [] zero_state ->
    Xoshiro256PP.default_state = zero_state) /\
   (length (Xoshiro128PP.write LittleEndian [] Xoshiro128PP.default_state)
    = length (@nil byte) + 19)%nat /\
   (Xoshiro128PP.write LittleEndian [] Xoshiro128PP.default_state
    = Xoshiro128PP.write LittleEndian [] zero_state ->
    Xoshiro128PP.default_state = zero_state)).
Proof.
  assert (Z64 : wf_state 64 zero_state) by (apply wf_zero; lia).
  assert (Z32 : wf_state 32 zero_state) by (apply wf_zero; lia).
  split; [exact (conj wf_default256 (conj Z64 (conj wf_default128 Z32)))|].
  exact (write_is_one_to_one LittleEndian [] _ _ _ _
           wf_default256 Z64 wf_default128 Z32).
Defined.

(** ** The two halves of a word, and arrays of words *)

Lemma halves_of_join (e : byte_order) (a b : Z) :
  0 <= a < 2 ^ 32 -> 0 <= b < 2 ^ 32 ->
  Spec.firstHalf e (Spec.joinHalves e a b) = a /\
  Spec.secondHalf e (Spec.joinHalves e a b) = b /\
  0 <= Spec.joinHalves e a b < 2 ^ 64.
Proof.
  intros Ha Hb.
  destruct e; cbn [Spec.firstHalf Spec.secondHalf Spec.joinHalves];
    unfold Spec.lowHalf, Spec.highHalf; rewrite mask32, Z.shiftr_div_pow2 by lia;
    change (2 ^ 32) with 4294967296 in *;
    change (2 ^ 64) with 18446744073709551616;
    (split; [|split]); try lia; Z.div_mod_to_equations; lia.
Qed.

Lemma join_of_halves (e : byte_order) (x : Z) :
  0 <= x < 2 ^ 64 ->
  Spec.joinHalves e (Spec.firstHalf e x) (Spec.secondHalf e x) = x /\
  0 <= Spec.firstHalf e x < 2 ^ 32 /\ 0 <= Spec.secondHalf e x < 2 ^ 32.
Proof.
  intros Hx.
  assert (L : 0 <= Spec.lowHalf x < 2 ^ 32).
  { unfold Spec.lowHalf. rewrite mask32. apply Z.mod_pos_bound. lia. }
  assert (U : 0 <= Spec.highHalf x < 2 ^ 32).
  { unfold Spec.highHalf. rewrite Z.shiftr_div_pow2 by lia.
    split; [apply Z.div_pos; lia | apply Z.div_lt_upper_bound; lia]. }
  assert (J : Spec.lowHalf x + 2 ^ 32 * Spec.highHalf x = x).
  { unfold Spec.lowHalf, Spec.highHalf. rewrite mask32, Z.shiftr_div_pow2 by lia.
    pose proof (Z.div_mod x (2 ^ 32) ltac:(lia)). lia. }
  destruct e; cbn [Spec.firstHalf Spec.secondHalf Spec.joinHalves];
    (split; [lia | split; assumption]).
Qed.

Lemma to_bytes_halves (e : byte_order) (x : Z) :
  to_bytes e 8 x
  = to_bytes e 4 (Spec.firstHalf e x) ++ to_bytes e 4 (Spec.secondHalf e x).
Proof.
  assert (Lo : le_split 4 (Spec.lowHalf x) = le_split 4 x).
  { unfold Spec.lowHalf. rewrite mask32. symmetry. apply (le_split_mod x 4). }
  destruct e; cbn [to_bytes Spec.firstHalf Spec.secondHalf]; rewrite Lo;
    unfold Spec.highHalf; rewrite <- le_split_upper.
  - rewrite <- le_split_lower. symmetry. apply firstn_skipn.
  - apply rev_le_split_8.
Qed.

Lemma to_bytes_join (e : byte_order) (a b : Z) :
  0 <= a < 2 ^ 32 -> 0 <= b < 2 ^ 32 ->
  to_bytes e 4 a ++ to_bytes e 4 b = to_bytes e 8 (Spec.joinHalves e a b).
Proof.
  intros Ha Hb. rewrite to_bytes_halves.
  destruct (halves_of_join e a b Ha Hb) as (-> & -> & _). reflexivity.
Qed.

(** X17. The two extraction helpers cut a 64-bit word in the order its
    halves are stored: "left" is the low half on a little-endian host and
    the high half on a big-endian one, "right" is the other half. Both are
    32-bit values and together they give the word back. *)
Theorem extract_halves_cover_word (e : byte_order) (x : Z) :
  0 <= x < 2 ^ 64 ->
  extract_32bits_from64_left e x
  = match e with LittleEndian => x mod 2 ^ 32 | BigEndian => x / 2 ^ 32 end /\
  extract_32bits_from64_right e x
  = match e with LittleEndian => x / 2 ^ 32 | BigEndian => x mod 2 ^ 32 end /\
  0 <= extract_32bits_from64_left e x < 2 ^ 32 /\
  0 <= extract_32bits_from64_right e x < 2 ^ 32 /\
  Spec.joinHalves e (extract_32bits_from64_left e x) (extract_32bits_from64_right e x)
  = x.
Proof.
  intros Hx.
  rewrite (extract_left_first e x Hx), (extract_right_second e x Hx).
  destruct (join_of_halves e x Hx) as (J & F & S).
  split; [|split; [|split; [exact F | split; [exact S | exact J]]]].
  - destruct e; cbn [Spec.firstHalf]; unfold Spec.lowHalf, Spec.highHalf.
    + apply mask32.
    + apply Z.shiftr_div_pow2. lia.
  - destruct e; cbn [Spec.secondHalf]; unfold Spec.lowHalf, Spec.highHalf.
    + apply Z.shiftr_div_pow2. lia.
    + apply mask32.
Qed.

Lemma extract_halves_cover_word_witness :
  0 <= 0x0123456789abcdef < 2 ^ 64 /\
  (extract_32bits_from64_left LittleEndian 0x0123456789abcdef
   = 0x0123456789abcdef mod 2 ^ 32 /\
   extract_32bits_from64_right LittleEndian 0x0123456789abcdef
   = 0x0123456789abcdef / 2 ^ 32 /\
   0 <= extract_32bits_from64_left LittleEndian 0x0123456789abcdef < 2 ^ 32 /\
   0 <= extract_32bits_from64_right LittleEndian 0x0123456789abcdef < 2 ^ 32 /\
   Spec.joinHalves LittleEndian
     (extract_32bits_from64_left LittleEndian 0x0123456789abcdef)
     (extract_32bits_from64_right LittleEndian 0x0123456789abcdef)
   = 0x0123456789abcdef).
Proof.
  assert (R : 0 <= 0x0123456789abcdef < 2 ^ 64) by lia.
  split; [exact R|].
  exact (extract_halves_cover_word LittleEndian 0x0123456789abcdef R).
Defined.

Lemma firstn_block {A : Type} (n : nat) (b r : list A) :
  length b = n -> firstn n (b ++ r) = b.
Proof. intros <-. apply firstn_length_app. Qed.

Lemma skipn_block {A : Type} (n : nat) (b r : list A) :
  length b = n -> skipn n (b ++ r) = r.
Proof. intros <-. apply skipn_length_app. Qed.

Lemma widen_is_join (e : byte_order) (s : Z) :
  0 <= s < 2 ^ 32 -> Spec.widen s = Spec.joinHalves e s s.
Proof.
  intros Hs. unfold Spec.widen.
  rewrite Z.or_to_plus.
  - rewrite Z.shiftl_mul_pow2 by lia. destruct e; cbn [Spec.joinHalves]; lia.
  - apply Z.bits_inj'. intros i Hi.
    rewrite Z.land_spec, Z.shiftl_spec, Z.bits_0 by assumption.
    destruct (Z.lt_ge_cases i 32) as [L | G].
    + rewrite (Z.testbit_neg_r s (i - 32)) by lia. reflexivity.
    + rewrite (testbit_high 32 s i) by assumption. apply andb_false_r.
Qed.

Lemma assign_left_local_value (e : byte_order) (x s : Z) :
  0 <= x < 2 ^ 64 -> 0 <= s < 2 ^ 32 ->
  assign_32bits_to64_left_local e x s = Spec.joinHalves e s (Spec.secondHalf e x).
Proof.
  intros Hx Hs. destruct (join_of_halves e x Hx) as (_ & F & S).
  unfold assign_32bits_to64_left_local, memcpy.
  rewrite (to_bytes_halves e x).
  rewrite (skipn_block 4) by apply to_bytes_length.
  rewrite (firstn_all2 (to_bytes e 4 s)) by (rewrite to_bytes_length; lia).
  rewrite to_bytes_join by assumption.
  apply (from_to_bytes_word e 8). apply halves_of_join; assumption.
Qed.

Lemma assign_right_local_value (e : byte_order) (x s : Z) :
  0 <= x < 2 ^ 64 -> 0 <= s < 2 ^ 32 ->
  assign_32bits_to64_right_local e x s = Spec.joinHalves e (Spec.firstHalf e x) s.
Proof.
  intros Hx Hs. destruct (join_of_halves e x Hx) as (_ & F & S).
  unfold assign_32bits_to64_right_local, memcpy.
  rewrite (to_bytes_halves e x).
  rewrite (skipn_block 4) by apply to_bytes_length.
  rewrite (firstn_block 4) by apply to_bytes_length.
  rewrite (firstn_all2 (to_bytes e 4 s)) by (rewrite to_bytes_length; lia).
  rewrite skipn_all2 by (rewrite to_bytes_length; lia).
  rewrite app_nil_r.
  rewrite to_bytes_join by assumption.
  apply (from_to_bytes_word e 8). apply halves_of_join; assumption.
Qed.

(** X18. Inside the two assignment helpers, the [memcpy] does what their
    names say to the callee's copy of the destination: "left" replaces the
    half stored first and keeps the other, "right" replaces the half stored
    second and keeps the other, and one after the other they turn the copy
    into the scalar widened to both halves, on a host of either byte order.
    The helpers return nothing, so none of this reaches the caller. *)
Theorem assign_helpers_fill_their_copy (e : byte_order) (x s : Z) :
  0 <= x < 2 ^ 64 -> 0 <= s < 2 ^ 32 ->
  extract_32bits_from64_left e (assign_32bits_to64_left_local e x s) = s /\
  extract_32bits_from64_right e (assign_32bits_to64_left_local e x s)
  = extract_32bits_from64_right e x /\
  extract_32bits_from64_right e (assign_32bits_to64_right_local e x s) = s /\
  extract_32bits_from64_left e (assign_32bits_to64_right_local e x s)
  = extract_32bits_from64_left e x /\
  assign_32bits_to64_right_local e (assign_32bits_to64_left_local e x s) s
  = Spec.widen s.
Proof.
  intros Hx Hs. destruct (join_of_halves e x Hx) as (_ & F & S).
  rewrite (assign_left_local_value e x s Hx Hs).
  rewrite (assign_right_local_value e x s Hx Hs).
  destruct (halves_of_join e s (Spec.secondHalf e x) Hs S) as (L1 & L2 & L3).
  destruct (halves_of_join e (Spec.firstHalf e x) s F Hs) as (R1 & R2 & R3).
  rewrite !extract_left_first, !extract_right_second by assumption.
  rewrite L1, L2, R1, R2.
  repeat (split; [reflexivity|]).
  rewrite (assign_right_local_value e _ s L3 Hs), L1.
  symmetry. apply widen_is_join. assumption.
Qed.

Lemma assign_helpers_fill_their_copy_witness :
  (0 <= 0x0123456789abcdef < 2 ^ 64 /\ 0 <= 0xdeadbeef < 2 ^ 32) /\
  (extract_32bits_from64_left BigEndian
     (assign_32bits_to64_left_local BigEndian 0x0123456789abcdef 0xdeadbeef)
   = 0xdeadbeef /\
   extract_32bits_from64_right BigEndian
     (assign_32bits_to64_left_local BigEndian 0x0123456789abcdef 0xdeadbeef)
   = extract_32bits_from64_right BigEndian 0x0123456789abcdef /\
   extract_32bits_from64_right BigEndian
     (assign_32bits_to64_right_local BigEndian 0x0123456789abcdef 0xdeadbeef)
   = 0xdeadbeef /\
   extract_32bits_from64_left BigEndian
     (assign_32bits_to64_right_local BigEndian 0x0123456789abcdef 0xdeadbeef)
   = extract_32bits_from64_left BigEndian 0x0123456789abcdef /\
   assign_32bits_to64_right_local BigEndian
     (assign_32bits_to64_left_local BigEndian 0x0123456789abcdef 0xdeadbeef)
     0xdeadbeef
   = Spec.widen 0xdeadbeef).
Proof.
  assert (R : 0 <= 0x0123456789abcdef < 2 ^ 64) by lia.
  assert (R' : 0 <= 0xdeadbeef < 2 ^ 32) by lia.
  split; [exact (conj R R')|].
  exact (assign_helpers_fill_their_copy BigEndian _ _ R R').
Defined.

(** ** Seeding from arrays and from a seed sequence *)

Lemma state_of_bytes_blocks (e : byte_order) (n : nat) (b0 b1 b2 b3 r : list byte) :
  length b0 = n -> length b1 = n -> length b2 = n -> length b3 = n ->
  state_of_bytes e n (b0 ++ b1 ++ b2 ++ b3 ++ r)
  = State4 (from_bytes e b0) (from_bytes e b1) (from_bytes e b2) (from_bytes e b3).
Proof.
  intros L0 L1 L2 L3. unfold state_of_bytes.
  replace (3 * n)%nat with (n + (n + n))%nat by lia.
  replace (2 * n)%nat with (n + n)%nat by lia.
  rewrite <- !skipn_skipn.
  rewrite (firstn_block n b0) by assumption.
  rewrite !(skipn_block n b0) by assumption.
  rewrite (firstn_block n b1) by assumption.
  rewrite !(skipn_block n b1) by assumption.
  rewrite (firstn_block n b2) by assumption.
  rewrite !(skipn_block n b2) by assumption.
  rewrite (firstn_block n b3) by assumption.
  reflexivity.
Qed.

Lemma memcpy_state_blocks (e : byte_order) (n : nat) (b0 b1 b2 b3 r : list byte)
      (st : state4) :
  length b0 = n -> length b1 = n -> length b2 = n -> length b3 = n ->
  memcpy_state e n (b0 ++ b1 ++ b2 ++ b3 ++ r) (4 * n) st
  = Some (tt, State4 (from_bytes e b0) (from_bytes e b1)
                     (from_bytes e b2) (from_bytes e b3)).
Proof.
  intros L0 L1 L2 L3. unfold memcpy_state, memcpy.
  replace (4 * n <=? length (b0 ++ b1 ++ b2 ++ b3 ++ r))%nat with true
    by (symmetry; apply Nat.leb_le; rewrite !length_app; lia).
  rewrite (skipn_all2 (state_bytes e n st)) by (rewrite state_bytes_length; lia).
  rewrite app_nil_r.
  replace (b0 ++ b1 ++ b2 ++ b3 ++ r) with ((b0 ++ b1 ++ b2 ++ b3) ++ r)
    by (rewrite <- !app_assoc; reflexivity).
  rewrite (firstn_block (4 * n)) by (rewrite !length_app; lia).
  rewrite <- (app_nil_r b3) at 1.
  rewrite state_of_bytes_blocks by assumption. reflexivity.
Qed.

(** X19. Seeding from an array of words copies the array: after
    [seed(const std::uint64_t[4])] on Xoshiro256PP, and after
    [seed(const std::uint32_t[4])] on Xoshiro128PP, the state is the first
    four words of the array, whatever the state was before and whatever the
    byte order of the host; the constructor from an array does the same.
    No word is checked: the all-zero array is taken as it is. *)
Theorem seed_words_copies_array (e : byte_order) (s s' st : state4) (more : list Z) :
  wf_state 64 s -> wf_state 32 s' ->
  Xoshiro256PP.seed_words e (st0 s :: st1 s :: st2 s :: st3 s :: more) st
  = Some (tt, s) /\
  Xoshiro256PP.construct_words e (st0 s :: st1 s :: st2 s :: st3 s :: more) = Some s /\
  Xoshiro128PP.seed_words32 e (st0 s' :: st1 s' :: st2 s' :: st3 s' :: more) st
  = Some (tt, s') /\
  Xoshiro256PP.seed_words e [0; 0; 0; 0] st = Some (tt, zero_state).
Proof.
  intros H H'.
  assert (G : forall t, Xoshiro256PP.seed_words e
                          (st0 s :: st1 s :: st2 s :: st3 s :: more) t = Some (tt, s)).
  { intros t. destruct s as [a b c d]. destruct H as (Ha & Hb & Hc & Hd).
    cbn [st0 st1 st2 st3] in *.
    unfold Xoshiro256PP.seed_words, array_bytes. cbn [flat_map].
    rewrite (memcpy_state_blocks e 8) by apply to_bytes_length.
    rewrite !(from_to_bytes_word e 8) by assumption. reflexivity. }
  split; [apply G|]. split; [|split].
  - unfold Xoshiro256PP.construct_words. rewrite G. reflexivity.
  - destruct s' as [a b c d]. destruct H' as (Ha & Hb & Hc & Hd).
    cbn [st0 st1 st2 st3] in *.
    unfold Xoshiro128PP.seed_words32, array_bytes. cbn [flat_map].
    rewrite (memcpy_state_blocks e 4) by apply to_bytes_length.
    rewrite !(from_to_bytes_word e 4) by assumption. reflexivity.
  - unfold Xoshiro256PP.seed_words, array_bytes. cbn [flat_map].
    rewrite (memcpy_state_blocks e 8) by apply to_bytes_length.
    rewrite !(from_to_bytes_word e 8) by (cbn; lia). reflexivity.
Qed.

Lemma seed_words_copies_array_witness :
  (wf_state 64 Xoshiro256PP.default_state /\
   wf_state 32 Xoshiro128PP.default_state) /\
  (Xoshiro256PP.seed_words BigEndian
     (st0 Xoshiro256PP.default_state :: st1 Xoshiro256PP.default_state ::
      st2 Xoshiro256PP.default_state :: st3 Xoshiro256PP.default_state :: [])
     zero_state
   = Some (tt, Xoshiro256PP.default_state) /\
   Xoshiro256PP.construct_words BigEndian
     (st0 Xoshiro256PP.default_state :: st1 Xoshiro256PP.default_state ::
      st2 Xoshiro256PP.default_state :: st3 Xoshiro256PP.default_state :: [])
   = Some Xoshiro256PP.default_state /\
   Xoshiro128PP.seed_words32 BigEndian
     (st0 Xoshiro128PP.default_state :: st1 Xoshiro128PP.default_state ::
      st2 Xoshiro128PP.default_state :: st3 Xoshiro128PP.default_state :: [])
     zero_state
   = Some (tt, Xoshiro128PP.default_state) /\
   Xoshiro256PP.seed_words BigEndian [0; 0; 0; 0] zero_state = Some (tt, zero_state)).
Proof.
  split; [exact (conj wf_default256 wf_default128)|].
  exact (seed_words_copies_array BigEndian _ _ zero_state []
           wf_default256 wf_default128).
Defined.

(** X20. [Xoshiro128PP::seed(const std::uint64_t[2])] cuts each of the two
    64-bit words in the order its halves are stored: words 0 and 1 of the
    state are the first-stored and second-stored half of [seed[0]], words 2
    and 3 those of [seed[1]]. On a little-endian host that is low half
    first, on a big-endian host high half first. *)
Theorem seed_words64_splits_in_storage_order (e : byte_order) (v0 v1 : Z)
        (more : list Z) (st : state4) :
  0 <= v0 < 2 ^ 64 -> 0 <= v1 < 2 ^ 64 ->
  Xoshiro128PP.seed_words64 e (v0 :: v1 :: more) st
  = Some (tt, State4 (Spec.firstHalf e v0) (Spec.secondHalf e v0)
                     (Spec.firstHalf e v1) (Spec.secondHalf e v1)) /\
  Spec.firstHalf LittleEndian v0 = v0 mod 2 ^ 32 /\
  Spec.secondHalf LittleEndian v0 = v0 / 2 ^ 32 /\
  Spec.firstHalf BigEndian v0 = v0 / 2 ^ 32 /\
  Spec.secondHalf BigEndian v0 = v0 mod 2 ^ 32.
Proof.
  intros H0 H1.
  destruct (join_of_halves e v0 H0) as (_ & F0 & S0).
  destruct (join_of_halves e v1 H1) as (_ & F1 & S1).
  split.
  - unfold Xoshiro128PP.seed_words64, array_bytes. cbn [flat_map].
    rewrite !to_bytes_halves, <- !app_assoc.
    rewrite (memcpy_state_blocks e 4) by apply to_bytes_length.
    rewrite !(from_to_bytes_word e 4) by assumption. reflexivity.
  - cbn [Spec.firstHalf Spec.secondHalf]. unfold Spec.lowHalf, Spec.highHalf.
    rewrite mask32, Z.shiftr_div_pow2 by lia. repeat split; reflexivity.
Qed.

Lemma seed_words64_splits_in_storage_order_witness :
  (0 <= 0x0123456789abcdef < 2 ^ 64 /\ 0 <= 7 < 2 ^ 64) /\
  (Xoshiro128PP.seed_words64 LittleEndian (0x0123456789abcdef :: 7 :: []) zero_state
   = Some (tt, State4 (Spec.firstHalf LittleEndian 0x0123456789abcdef)
                      (Spec.secondHalf LittleEndian 0x0123456789abcdef)
                      (Spec.firstHalf LittleEndian 7)
                      (Spec.secondHalf LittleEndian 7)) /\
   Spec.firstHalf LittleEndian 0x0123456789abcdef = 0x0123456789abcdef mod 2 ^ 32 /\
   Spec.secondHalf LittleEndian 0x0123456789abcdef = 0x0123456789abcdef / 2 ^ 32 /\
   Spec.firstHalf BigEndian 0x0123456789abcdef = 0x0123456789abcdef / 2 ^ 32 /\
   Spec.secondHalf BigEndian 0x0123456789abcdef = 0x0123456789abcdef mod 2 ^ 32).
Proof.
  assert (R : 0 <= 0x0123456789abcdef < 2 ^ 64) by lia.
  assert (R' : 0 <= 7 < 2 ^ 64) by lia.
  split; [exact (conj R R')|].
  exact (seed_words64_splits_in_storage_order LittleEndian _ _ [] zero_state R R').
Defined.

(** X21. Seeding Xoshiro256PP from a seed sequence pairs the eight 32-bit
    values the sequence generates: word [i] of the state has value [2i] as
    the half stored first and value [2i + 1] as the half stored second, so
    on a little-endian host it is [g(2i) + 2^32 * g(2i+1)] and on a
    big-endian host [2^32 * g(2i) + g(2i+1)]. *)
Theorem seed_seq256_pairs_values (e : byte_order) (generate : nat -> list Z)
        (g0 g1 g2 g3 g4 g5 g6 g7 : Z) (st : state4) :
  generate 8%nat = [g0; g1; g2; g3; g4; g5; g6; g7] ->
  Forall (fun g => 0 <= g < 2 ^ 32) (generate 8%nat) ->
  Xoshiro256PP.seed_seq e generate st
  = Some (tt, State4 (Spec.joinHalves e g0 g1) (Spec.joinHalves e g2 g3)
                     (Spec.joinHalves e g4 g5) (Spec.joinHalves e g6 g7)).
Proof.
  intros G R. rewrite G in R.
  repeat match goal with
         | H : Forall _ (_ :: _) |- _ =>
             let Hh := fresh "R" in
             apply Forall_cons_iff in H; destruct H as [Hh H]
         end.
  unfold Xoshiro256PP.seed_seq, array_bytes, memcpy. rewrite G.
  cbn [firstn flat_map]. rewrite app_nil_r.
  rewrite (app_assoc (to_bytes e 4 g0)), (to_bytes_join e g0 g1) by assumption.
  rewrite (app_assoc (to_bytes e 4 g2)), (to_bytes_join e g2 g3) by assumption.
  rewrite (app_assoc (to_bytes e 4 g4)), (to_bytes_join e g4 g5) by assumption.
  rewrite (to_bytes_join e g6 g7) by assumption.
  rewrite firstn_all.
  rewrite skipn_all2
    by (rewrite state_bytes_length, !length_app, !to_bytes_length; lia).
  rewrite app_nil_r.
  rewrite <- (app_nil_r (to_bytes e 8 (Spec.joinHalves e g6 g7))).
  rewrite (state_of_bytes_blocks e 8) by apply to_bytes_length.
  rewrite !(from_to_bytes_word e 8) by (apply halves_of_join; assumption).
  reflexivity.
Qed.

Lemma seed_seq256_pairs_values_witness :
  ((fun k : nat => List.map Z.of_nat (seq 1 k)) 8%nat = [1; 2; 3; 4; 5; 6; 7; 8] /\
   Forall (fun g => 0 <= g < 2 ^ 32)
          ((fun k : nat => List.map Z.of_nat (seq 1 k)) 8%nat)) /\
  Xoshiro256PP.seed_seq LittleEndian (fun k => List.map Z.of_nat (seq 1 k)) zero_state
  = Some (tt, State4 (Spec.joinHalves LittleEndian 1 2) (Spec.joinHalves LittleEndian 3 4)
                     (Spec.joinHalves LittleEndian 5 6) (Spec.joinHalves LittleEndian 7 8)).
Proof.
  assert (G : (fun k : nat => List.map Z.of_nat (seq 1 k)) 8%nat
              = [1; 2; 3; 4; 5; 6; 7; 8]) by reflexivity.
  assert (R : Forall (fun g => 0 <= g < 2 ^ 32)
                     ((fun k : nat => List.map Z.of_nat (seq 1 k)) 8%nat)).
  { cbn. repeat constructor; lia. }
  split; [exact (conj G R)|].
  exact (seed_seq256_pairs_values LittleEndian _ 1 2 3 4 5 6 7 8 zero_state G R).
Defined.

(** X22. The byte order of the host changes what a 64-bit scalar seeds
    Xoshiro128PP with: the state a big-endian host gets is the state a
    little-endian host gets with words 0 and 1 exchanged and words 2 and 3
    exchanged. *)
Theorem seed128_byte_order_exchanges_words (s : Z) (st : state4) :
  exists a b c d,
    Xoshiro128PP.seed LittleEndian s st = Some (tt, State4 a b c d) /\
    Xoshiro128PP.seed BigEndian s st = Some (tt, State4 b a d c).
Proof.
  destruct (splitmix64_defined s) as (t1 & E1 & R1).
  destruct (splitmix64_defined t1) as (t2 & E2 & R2).
  destruct (splitmix64_defined (Spec.lowHalf t1)) as (y0 & F0 & _).
  destruct (splitmix64_defined (Spec.highHalf t1)) as (y1 & F1 & _).
  destruct (splitmix64_defined (Spec.lowHalf t2)) as (y2 & F2 & _).
  destruct (splitmix64_defined (Spec.highHalf t2)) as (y3 & F3 & _).
  exists (wrap 32 y0), (wrap 32 y1), (wrap 32 y2), (wrap 32 y3).
  split.
  - unfold Xoshiro128PP.seed, bind, lift, store. rewrite E1, E2.
    rewrite !extract_left_little, !extract_right_little by assumption.
    rewrite F0, F1, F2, F3. reflexivity.
  - unfold Xoshiro128PP.seed, bind, lift, store. rewrite E1, E2.
    rewrite !extract_left_big, !extract_right_big by assumption.
    rewrite F0, F1, F2, F3. reflexivity.
Qed.

(** ** The transition is linear over the two-element field *)

Ltac xor_bits :=
  apply Z.bits_inj'; intros ?i ?Hi;
  repeat (rewrite ?Z.lxor_spec, ?testbit_wrap, ?Z.shiftl_spec by lia);
  repeat match goal with
         | |- context [Z.testbit ?x ?j] => destruct (Z.testbit x j)
         end;
  repeat match goal with
         | |- context [?a <? ?b] => destruct (a <? b)
         end;
  reflexivity.

Lemma rot_lxor (w k x y : Z) :
  0 <= x < 2 ^ w -> 0 <= y < 2 ^ w -> 0 < k < w ->
  Z.lor (wrap w (Z.shiftl (Z.lxor x y) k)) (Z.shiftr (Z.lxor x y) (w - k))
  = Z.lxor (Z.lor (wrap w (Z.shiftl x k)) (Z.shiftr x (w - k)))
           (Z.lor (wrap w (Z.shiftl y k)) (Z.shiftr y (w - k))).
Proof.
  intros Hx Hy Hk.
  assert (Hxy : 0 <= Z.lxor x y < 2 ^ w) by (apply lxor_range; assumption).
  apply (bits_inj_range w).
  - apply rot_range; assumption.
  - apply lxor_range; apply rot_range; assumption.
  - intros i Hi. rewrite Z.lxor_spec, !rot_testbit by assumption.
    apply Z.lxor_spec.
Qed.

(** X23. The state transition of [operator()] is linear over the
    two-element field, for both engines: the state reached from the
    word-by-word exclusive or of two states is the exclusive or of the states
    reached from each. *)
Theorem transition_is_xor_linear (a b a' b' : state4) :
  wf_state 64 a -> wf_state 64 b -> wf_state 32 a' -> wf_state 32 b' ->
  (exists ra rb rab ta tb,
      Xoshiro256PP.call a = Some (ra, ta) /\
      Xoshiro256PP.call b = Some (rb, tb) /\
      Xoshiro256PP.call (Spec.state_xor a b) = Some (rab, Spec.state_xor ta tb)) /\
  (exists ra rb rab ta tb,
      Xoshiro128PP.call a' = Some (ra, ta) /\
      Xoshiro128PP.call b' = Some (rb, tb) /\
      Xoshiro128PP.call (Spec.state_xor a' b') = Some (rab, Spec.state_xor ta tb)).
Proof.
  intros Ha Hb Ha' Hb'. split.
  - destruct a as [a0 a1 a2 a3], b as [b0 b1 b2 b3].
    destruct Ha as (A0 & A1 & A2 & A3), Hb as (B0 & B1 & B2 & B3).
    cbn [st0 st1 st2 st3] in *.
    unfold Spec.state_xor at 1. cbn [st0 st1 st2 st3].
    rewrite !call256_unfold.
    do 5 eexists. split; [reflexivity|]. split; [reflexivity|].
    f_equal. f_equal. unfold Spec.state_xor. cbn [st0 st1 st2 st3].
    f_equal.
    + xor_bits.
    + xor_bits.
    + xor_bits.
    + replace (Z.lxor (Z.lxor a3 b3) (Z.lxor a1 b1))
        with (Z.lxor (Z.lxor a3 a1) (Z.lxor b3 b1)) by xor_bits.
      apply rot_lxor; try lia; apply lxor_range; assumption.
  - destruct a' as [a0 a1 a2 a3], b' as [b0 b1 b2 b3].
    destruct Ha' as (A0 & A1 & A2 & A3), Hb' as (B0 & B1 & B2 & B3).
    cbn [st0 st1 st2 st3] in *.
    unfold Spec.state_xor at 1. cbn [st0 st1 st2 st3].
    rewrite !call128_unfold.
    do 5 eexists. split; [reflexivity|]. split; [reflexivity|].
    f_equal. f_equal. unfold Spec.state_xor. cbn [st0 st1 st2 st3].
    f_equal.
    + xor_bits.
    + xor_bits.
    + xor_bits.
    + replace (Z.lxor (Z.lxor a3 b3) (Z.lxor a1 b1))
        with (Z.lxor (Z.lxor a3 a1) (Z.lxor b3 b1)) by xor_bits.
      apply rot_lxor; try lia; apply lxor_range; assumption.
Qed.

Lemma transition_is_xor_linear_witness :
  (wf_state 64 Xoshiro256PP.default_state /\ wf_state 64 zero_state /\
   wf_state 32 Xoshiro128PP.default_state /\ wf_state 32 zero_state) /\
  ((exists ra rb rab ta tb,
       Xoshiro256PP.call Xoshiro256PP.default_state = Some (ra, ta) /\
       Xoshiro256PP.call zero_state = Some (rb, tb) /\
       Xoshiro256PP.call (Spec.state_xor Xoshiro256PP.default_state zero_state)
       = Some (rab, Spec.state_xor ta tb)) /\
   (exists ra rb rab ta tb,
       Xoshiro128PP.call Xoshiro128PP.default_state = Some (ra, ta) /\
       Xoshiro128PP.call zero_state = Some (rb, tb) /\
       Xoshiro128PP.call (Spec.state_xor Xoshiro128PP.default_state zero_state)
       = Some (rab, Spec.state_xor ta tb))).
Proof.
  assert (Z64 : wf_state 64 zero_state) by (apply wf_zero; lia).
  assert (Z32 : wf_state 32 zero_state) by (apply wf_zero; lia).
  split; [exact (conj wf_default256 (conj Z64 (conj wf_default128 Z32)))|].
  exact (transition_is_xor_linear _ _ _ _ wf_default256 Z64 wf_default128 Z32).
Defined.

(** ** A freshly seeded Xoshiro256PP *)

(** X24. Seeding Xoshiro256PP from any scalar, or constructing it from
    one, succeeds and leaves four 64-bit words that are not all zero; so
    does every later [discard], and no later draw brings the engine to the
    all-zero state. *)
Theorem seed256_leaves_usable_state (s z : Z) (st : state4) :
  0 <= z < 2 ^ 64 ->
  exists t t',
    Xoshiro256PP.seed s st = Some (tt, t) /\
    Xoshiro256PP.construct s = Some t /\
    wf_state 64 t /\ t <> zero_state /\
    Xoshiro256PP.discard z t = Some (tt, t') /\
    wf_state 64 t' /\ t' <> zero_state.
Proof.
  intros Hz.
  destruct (seed256_nonzero s st) as (t & E & W & N).
  destruct (seed256_chain s) as (x & x0 & x1 & x2 & x3 & _ & _ & _ & _ & _ & _ & H).
  pose proof (H st) as E2. rewrite E in E2.
  apply some_pair_inv in E2 as [_ ->].
  assert (G : exists t', (call_times Xoshiro256PP.call (Z.to_nat z) 0 ;; ret tt)
                           (State4 x0 x1 x2 x3)
                         = Some (tt, t') /\ (wf_state 64 t' /\ t' <> zero_state)).
  { apply (call_times_keeps Xoshiro256PP.call
             (fun s => wf_state 64 s /\ s <> zero_state) call256_keeps_seeded).
    split; assumption. }
  destruct G as (t' & D & W' & N').
  exists (State4 x0 x1 x2 x3), t'. split; [exact E|]. split.
  - unfold Xoshiro256PP.construct. rewrite H. reflexivity.
  - split; [exact W|]. split; [exact N|]. split; [|split; assumption].
    rewrite discard256_as_calls by assumption. exact D.
Qed.

Lemma seed256_leaves_usable_state_witness :
  0 <= 5 < 2 ^ 64 /\
  exists t t',
    Xoshiro256PP.seed 0 zero_state = Some (tt, t) /\
    Xoshiro256PP.construct 0 = Some t /\
    wf_state 64 t /\ t <> zero_state /\
    Xoshiro256PP.discard 5 t = Some (tt, t') /\
    wf_state 64 t' /\ t' <> zero_state.
Proof.
  assert (R : 0 <= 5 < 2 ^ 64) by lia.
  split; [exact R|].
  exact (seed256_leaves_usable_state 0 5 zero_state R).
Defined.
